(** * pyspread, [src/lib/parsers.py]: the F4 reference-mode cycling functions

    A shallow embedding of [testXorYabsrel], [makeXorYrel], [makeXorYabs],
    [makeXorYrelorabs], [findpos], [findcolon] and [OnF4], and the
    properties of them that the specification states; and of the other
    pure functions of the file, [color_pack2rgb], [color_rgb2pack],
    [unquote_string], [parse_dict_strings] and [common_start].

    Python values are modelled as follows.
    - A [str] is a [list ascii] ([pystr]); an [int] is a [Z].
    - Indexing, slicing, [find], [count], [int] and [str] are builtins of
      the language, given here with the behaviour the program relies on
      (negative indices wrap, slices clip, indexing out of range raises).
    - [eval] is a builtin as well. Its value on integer expressions is
      computed; what it does on every other text is a parameter of the
      functions that call it, and nothing is assumed about it.
    - A call either returns, raises, or is still running when its budget
      of loop iterations is used up: [Ret], [Raise], [Timeout]. Every
      [while] of the source is a [Fixpoint] on that budget and spends one
      unit per iteration, so a call that is [Timeout] for every budget is
      a call that does not terminate.
    - The [print] statements of the source write to the console only and
      are left out. *)

From Stdlib Require Import ZArith List Ascii Bool Lia.
From Stdlib Require String.
Import String.StringSyntax.
Import ListNotations.
Delimit Scope string_scope with string.
Local Open Scope Z_scope.
Local Open Scope list_scope.

(** ** Python strings *)

Definition pystr := list ascii.

(** A string literal of the source. *)
Definition lit (x : String.string) : pystr := String.list_ascii_of_string x.
Arguments lit x%_string.

(** The double-quote character. *)
Definition dquote : ascii := ascii_of_nat 34.
Definition tab : ascii := ascii_of_nat 9.

Definition len (t : pystr) : Z := Z.of_nat (length t).

(** ** Outcomes of a call *)

(** [IndexError] comes from indexing and [ValueError] from [int];
    [EvalError] stands for every other exception, which only [eval] and
    the addition to its value can raise. *)
Inductive exn : Type := IndexError | ValueError | EvalError.

Inductive result (A : Type) : Type :=
| Ret (a : A)
| Raise (e : exn)
| Timeout.

Arguments Ret {A} a.
Arguments Raise {A} e.
Arguments Timeout {A}.

Definition bind {A B : Type} (c : result A) (k : A -> result B) : result B :=
  match c with
  | Ret a => k a
  | Raise e => Raise e
  | Timeout => Timeout
  end.

Notation "x <- c ;; k" := (bind c (fun x => k))
  (at level 61, c at next level, right associativity).
Notation "' pat <- c ;; k" := (bind c (fun x => match x with pat => k end))
  (at level 61, pat pattern, c at next level, right associativity).

(** ** Builtins on strings *)

Module Py.

(** [t[i]]: a negative index counts from the end, an index out of range
    raises [IndexError]. *)
Definition getitem (t : pystr) (i : Z) : result ascii :=
  let j := if i <? 0 then i + len t else i in
  if (0 <=? j) && (j <? len t)
  then match nth_error t (Z.to_nat j) with
       | Some c => Ret c
       | None => Raise IndexError
       end
  else Raise IndexError.

(** A slice bound, brought into [0 .. n] the way slicing does. *)
Definition clip (n i : Z) : Z :=
  if i <? 0 then Z.max 0 (i + n) else Z.min i n.

(** [t[lo:hi]]. *)
Definition slice (t : pystr) (lo hi : Z) : pystr :=
  let a := clip (len t) lo in
  let b := clip (len t) hi in
  firstn (Z.to_nat (b - a)) (skipn (Z.to_nat a) t).

(** [t[lo:]] and [t[:hi]]. *)
Definition slice_from (t : pystr) (lo : Z) : pystr := slice t lo (len t).
Definition slice_to (t : pystr) (hi : Z) : pystr := slice t 0 hi.

Fixpoint prefixb (p t : pystr) : bool :=
  match p, t with
  | [], _ => true
  | _ :: _, [] => false
  | a :: p', b :: t' => Ascii.eqb a b && prefixb p' t'
  end.

Fixpoint find_from (sub t : pystr) (i : Z) {struct t} : Z :=
  if prefixb sub t then i
  else match t with
       | [] => -1
       | _ :: t' => find_from sub t' (i + 1)
       end.

(** [t.find(sub)]: the least index where [sub] occurs, or [-1]. *)
Definition find (t sub : pystr) : Z := find_from sub t 0.

(** [t.count(c)] for a one-character [c]. *)
Definition count (t : pystr) (c : ascii) : Z :=
  Z.of_nat (length (filter (Ascii.eqb c) t)).

(** [c in chars], for a one-character [c], and for a list of
    one-character strings alike. *)
Definition mem (c : ascii) (chars : pystr) : bool :=
  existsb (Ascii.eqb c) chars.

Definition streq (a b : pystr) : bool :=
  if list_eq_dec ascii_dec a b then true else false.

(** *** [int(text)] *)

Definition isspace (c : ascii) : bool :=
  mem c [" "%char; tab; ascii_of_nat 10; ascii_of_nat 11;
         ascii_of_nat 12; ascii_of_nat 13].

Definition isdigit (c : ascii) : bool :=
  let n := nat_of_ascii c in (48 <=? n)%nat && (n <=? 57)%nat.

Definition digit_val (c : ascii) : Z := Z.of_nat (nat_of_ascii c) - 48.

Fixpoint lstrip (t : pystr) : pystr :=
  match t with
  | c :: t' => if isspace c then lstrip t' else t
  | [] => []
  end.

(** The longest run of digits at the front of [t], as a number on top of
    [acc], and what follows it. *)
Fixpoint read_digits (t : pystr) (acc : Z) : Z * pystr :=
  match t with
  | c :: t' => if isdigit c then read_digits t' (10 * acc + digit_val c)
               else (acc, t)
  | [] => (acc, [])
  end.

Definition unsigned_literal (t : pystr) : option Z :=
  match t with
  | c :: _ =>
      if isdigit c
      then let (v, rest) := read_digits t 0 in
           if forallb isspace rest then Some v else None
      else None
  | [] => None
  end.

(** [int(text)] on a string: blanks, an optional sign, decimal digits,
    blanks. [None] stands for the [ValueError] of the builtin. *)
Definition int (t : pystr) : option Z :=
  match lstrip t with
  | c :: r =>
      if Ascii.eqb c "+" then unsigned_literal r
      else if Ascii.eqb c "-" then option_map Z.opp (unsigned_literal r)
      else unsigned_literal (c :: r)
  | [] => None
  end.

(** *** [str(n)] *)

Definition digit_char (d : Z) : ascii := ascii_of_nat (Z.to_nat (48 + d)).

Fixpoint str_digits (fuel : nat) (n : Z) (acc : pystr) : pystr :=
  match fuel with
  | O => acc
  | S fuel' =>
      let acc' := digit_char (n mod 10) :: acc in
      if n <? 10 then acc' else str_digits fuel' (n / 10) acc'
  end.

Definition str_nonneg (n : Z) : pystr :=
  str_digits (S (Z.to_nat (Z.log2 n))) n [].

(** [str(n)] for an integer: decimal digits, [-] in front of a negative
    number. *)
Definition str (n : Z) : pystr :=
  if n <? 0 then "-"%char :: str_nonneg (- n) else str_nonneg n.

End Py.

(** ** [eval(text, {})] *)

(** [eval(text, {})] is a builtin of the language, not code of the
    repository. The program calls it on a component in which the axis
    name has been replaced by [0], and uses the outcome in two ways:
    [testXorYabsrel] only looks whether the call raises, [makeXorYabs]
    adds the anchor coordinate to the value and takes [str] of the sum.

    The builtin is given in two parts. On integer expressions, [Eval.eval]
    computes the value the builtin returns: decimal literals, unary [+],
    [-] and [~], binary [+], [-], [*], [/], [//] and [%] (division and
    remainder round toward minus infinity, as they do on integers in the
    source language), parentheses, blanks and tabs between tokens. On
    every other text (names, calls, strings, floats, comparisons, [**],
    literals that are not decimal, an expression that divides by zero,
    ...) [Eval.eval] is [None] and what the builtin does is left open:
    the functions of the program take it as the parameter [beyond], see
    [py_eval], and what is proved of them holds for every [beyond]. *)
Module Eval.

Inductive token : Type :=
| TNum (n : Z)
| TPlus | TMinus | TStar | TSlash | TPercent | TTilde
| TLParen | TRParen.

(** Tokens of the text; [None] on a character that starts no token. A
    literal with a leading zero is not decimal and is refused. *)
Fixpoint lex (fuel : nat) (t : pystr) : option (list token) :=
  match fuel with
  | O => None
  | S fuel' =>
      match t with
      | [] => Some []
      | c :: t' =>
          if Ascii.eqb c " " || Ascii.eqb c tab then lex fuel' t'
          else if Py.isdigit c then
            let (v, rest) := Py.read_digits t 0 in
            if Ascii.eqb c "0" && negb (Z.of_nat (length rest) + 1 =? len t)
            then None
            else option_map (cons (TNum v)) (lex fuel' rest)
          else
            let one (k : token) := option_map (cons k) (lex fuel' t') in
            if Ascii.eqb c "+" then one TPlus
            else if Ascii.eqb c "-" then one TMinus
            else if Ascii.eqb c "*" then one TStar
            else if Ascii.eqb c "%" then one TPercent
            else if Ascii.eqb c "~" then one TTilde
            else if Ascii.eqb c "(" then one TLParen
            else if Ascii.eqb c ")" then one TRParen
            else if Ascii.eqb c "/" then
              match t' with
              | c' :: t'' =>
                  if Ascii.eqb c' "/"
                  then option_map (cons TSlash) (lex fuel' t'')
                  else one TSlash
              | [] => one TSlash
              end
            else None
      end
  end.

Definition divide (a b : Z) : option Z :=
  if b =? 0 then None else Some (a / b).

Definition modulo (a b : Z) : option Z :=
  if b =? 0 then None else Some (a mod b).

(** The grammar, by recursive descent:
    expr ::= term (("+" | "-") term)*,
    term ::= factor (("*" | "/" | "%") factor)*,
    factor ::= ("+" | "-" | "~") factor | literal | "(" expr ")". *)
Inductive goal : Type :=
| GExpr | GExprRest (acc : Z)
| GTerm | GTermRest (acc : Z)
| GFactor.

Fixpoint parse (fuel : nat) (g : goal) (ts : list token)
  : option (Z * list token) :=
  match fuel with
  | O => None
  | S fuel' =>
      match g with
      | GExpr =>
          match parse fuel' GTerm ts with
          | Some (v, r) => parse fuel' (GExprRest v) r
          | None => None
          end
      | GExprRest acc =>
          match ts with
          | TPlus :: r =>
              match parse fuel' GTerm r with
              | Some (v, r') => parse fuel' (GExprRest (acc + v)) r'
              | None => None
              end
          | TMinus :: r =>
              match parse fuel' GTerm r with
              | Some (v, r') => parse fuel' (GExprRest (acc - v)) r'
              | None => None
              end
          | _ => Some (acc, ts)
          end
      | GTerm =>
          match parse fuel' GFactor ts with
          | Some (v, r) => parse fuel' (GTermRest v) r
          | None => None
          end
      | GTermRest acc =>
          match ts with
          | TStar :: r =>
              match parse fuel' GFactor r with
              | Some (v, r') => parse fuel' (GTermRest (acc * v)) r'
              | None => None
              end
          | TSlash :: r =>
              match parse fuel' GFactor r with
              | Some (v, r') =>
                  match divide acc v with
                  | Some q => parse fuel' (GTermRest q) r'
                  | None => None
                  end
              | None => None
              end
          | TPercent :: r =>
              match parse fuel' GFactor r with
              | Some (v, r') =>
                  match modulo acc v with
                  | Some q => parse fuel' (GTermRest q) r'
                  | None => None
                  end
              | None => None
              end
          | _ => Some (acc, ts)
          end
      | GFactor =>
          match ts with
          | TNum n :: r => Some (n, r)
          | TPlus :: r => parse fuel' GFactor r
          | TMinus :: r =>
              match parse fuel' GFactor r with
              | Some (v, r') => Some (- v, r')
              | None => None
              end
          | TTilde :: r =>
              match parse fuel' GFactor r with
              | Some (v, r') => Some (- v - 1, r')
              | None => None
              end
          | TLParen :: r =>
              match parse fuel' GExpr r with
              | Some (v, TRParen :: r') => Some (v, r')
              | _ => None
              end
          | _ => None
          end
      end
  end.

(** The value of the integer expression [t]; [None] when [t] is no integer
    expression or has no value. *)
Definition eval (t : pystr) : option Z :=
  match lex (S (length t)) t with
  | Some ts =>
      match parse (4 * length ts + 4) GExpr ts with
      | Some (v, []) => Some v
      | _ => None
      end
  | None => None
  end.

End Eval.

(** A value [eval] returns: an integer (an [int], a [long] or a [bool]),
    or any other object. Of another object the program only takes
    [str(value + n)] for an integer [n], so it is given by that: the text,
    or the exception the addition raises. *)
Inductive pyvalue : Type :=
| PyInt (z : Z)
| PyOther (plus_str : Z -> pystr + exn).

(** ** The specification's wording *)

(** The classifications, the substitution and the scanner with its two
    uses as the specification words them, to compare the program with. *)
Module Spec.

Inductive classification : Type := Absolute | Relative | Complex.



Definition opens (c : ascii) : bool := Py.mem c (lit "([{").
Definition closes (c : ascii) : bool := Py.mem c (lit ")]}").
Definition quotes (c : ascii) : bool := Py.mem c ["'"%char; dquote].

(** Section 4.1: the offset of the first [target] met while the nesting
    counter is 0 and no quoted run is open, or [-1]. [quote] is the mark
    that opened the current run, [escaped] tells that the character before
    was a backslash inside it. *)
Fixpoint scan (target : ascii) (t : pystr) (depth : Z)
  (quote : option ascii) (escaped : bool) (pos : Z) : Z :=
  match t with
  | [] => -1
  | c :: t' =>
      match quote with
      | Some q =>
          if escaped then scan target t' depth quote false (pos + 1)
          else if Ascii.eqb c "\" then scan target t' depth quote true (pos + 1)
          else if Ascii.eqb c q then scan target t' depth None false (pos + 1)
          else scan target t' depth quote false (pos + 1)
      | None =>
          if quotes c then scan target t' depth (Some c) false (pos + 1)
          else if Ascii.eqb c target && (depth =? 0) then pos
          else if opens c then scan target t' (depth + 1) None false (pos + 1)
          else if closes c then scan target t' (depth - 1) None false (pos + 1)
          else scan target t' depth None false (pos + 1)
      end
  end.

Definition findColon1 (t : pystr) : Z := scan ":" t 0 None false 0.

Definition findColon (strXY : pystr * pystr) : Z * Z :=
  (findColon1 (fst strXY), findColon1 (snd strXY)).

Definition findPosition (t : pystr) : pystr :=
  let pos := scan "," t 0 None false 0 in
  if pos <? 0 then t else Py.slice_to t pos.

End Spec.


(** ** The functions of [parsers.py] *)

Section F4.

(** What [eval(text, {})] does on a text that is no integer expression:
    the value it returns or the exception it raises. *)
Variable beyond : pystr -> pyvalue + exn.

(** [eval(text, {})]. *)
Definition py_eval (text : pystr) : pyvalue + exn :=
  match Eval.eval text with
  | Some z => inl (PyInt z)
  | None => beyond text
  end.

(** [testXorYabsrel(xory, text)]: ['A' + xory] when [int(text)] succeeds;
    otherwise, when [xory] occurs in [text], ['R' + xory] or ['C' + xory]
    as [eval] of the text with one character replaced by [0] succeeds or
    not; ['-'] when [xory] does not occur. Both [except:] clauses catch
    everything, so the function always returns. *)
Definition testXorYabsrel (xory text : pystr) : pystr :=
  match Py.int text with
  | Some _ => lit "A" ++ xory
  | None =>
      if 0 <=? Py.find text xory then
        let temp := Py.slice_to text (Py.find text xory) in
        let temp := temp ++ lit "0" in
        let temp := temp ++ Py.slice_from text (Py.find text xory + 1) in
        match py_eval temp with
        | inl _ => lit "R" ++ xory
        | inr _ => lit "C" ++ xory
        end
      else lit "-"
  end.

(** [makeXorYrel(xory, text, posCursor)]. *)
Definition makeXorYrel (xory text : pystr) (posCursor : Z * Z)
  : result pystr :=
  let posCursorXY :=
    if Py.streq xory (lit "X") then fst posCursor else snd posCursor in
  match Py.int text with
  | None => Raise ValueError
  | Some n =>
      let diff := n - posCursorXY in
      if 0 <? diff
      then Ret (xory ++ lit " + " ++ Py.str diff)
      else Ret (xory ++ lit " - " ++ Py.str (- diff))
  end.

(** [makeXorYabs(xory, text, posCursor)]. *)
Definition makeXorYabs (xory text : pystr) (posCursor : Z * Z)
  : result pystr :=
  let posCursorXY :=
    if Py.streq xory (lit "X") then fst posCursor else snd posCursor in
  let temp := Py.slice_to text (Py.find text xory) in
  let temp := temp ++ lit "0" in
  let temp := temp ++ Py.slice_from text (Py.find text xory + 1) in
  match py_eval temp with
  | inr e => Raise e
  | inl (PyInt val) => Ret (Py.str (val + posCursorXY))
  | inl (PyOther plus_str) =>
      match plus_str posCursorXY with
      | inl text => Ret text
      | inr e => Raise e
      end
  end.

(** [makeXorYrelorabs(xory, relorabs, text, posCursor)]. *)
Definition makeXorYrelorabs (xory relorabs text : pystr) (posCursor : Z * Z)
  : result pystr :=
  if Py.streq relorabs (lit "rel") then makeXorYrel xory text posCursor
  else if Py.streq relorabs (lit "abs") then makeXorYabs xory text posCursor
  else Ret text.

(** The characters that open and close a level in the inner loop of
    [findpos] and [findcolon]: ['([{\'"'] and [')]}\'"']. *)
Definition openers : pystr := lit "([{".
Definition openers_quotes : pystr := lit "([{'" ++ [dquote].
Definition closers_quotes : pystr := lit ")]}'" ++ [dquote].

(** One step of the inner loop: the [if]/[elif] on [text[pos]]. *)
Definition level_step (c : ascii) (bracketlevel : Z) : Z :=
  if Py.mem c openers_quotes then bracketlevel + 1
  else if Py.mem c closers_quotes then bracketlevel - 1
  else bracketlevel.

(** The inner loop [while bracketlevel > 0 and pos < len(text)]; it gives
    back [bracketlevel] and [pos] as they are when it stops. *)
Fixpoint skip_level (fuel : nat) (text : pystr) (bracketlevel pos : Z)
  : result (Z * Z) :=
  match fuel with
  | O => Timeout
  | S fuel' =>
      if (0 <? bracketlevel) && (pos <? len text) then
        c <- Py.getitem text pos ;;
        skip_level fuel' text (level_step c bracketlevel) (pos + 1)
      else Ret (bracketlevel, pos)
  end.

(** The loop [while pos < len(text)] of [findpos]. *)
Fixpoint findpos_loop (fuel : nat) (text : pystr) (bracketlevel pos : Z)
  : result pystr :=
  match fuel with
  | O => Timeout
  | S fuel' =>
      if pos <? len text then
        c <- Py.getitem text pos ;;
        if Ascii.eqb c "," then Ret (Py.slice_to text pos)
        else if Py.mem c openers then
          '(bracketlevel', pos') <-
             skip_level fuel text (bracketlevel + 1) pos ;;
          findpos_loop fuel' text bracketlevel' (pos' + 1)
        else findpos_loop fuel' text bracketlevel (pos + 1)
      else Ret text
  end.

(** [findpos(text)]. *)
Definition findpos (fuel : nat) (text : pystr) : result pystr :=
  findpos_loop fuel text 0 0.

(** The [while] of [findcolon] on one of the two strings; it gives back
    the entry of [colons] and [bracketlevel], which the source sets to 0
    once, before the [for], and carries from the first string into the
    second. *)
Fixpoint findcolon_loop (fuel : nat) (text : pystr) (bracketlevel pos : Z)
  : result (Z * Z) :=
  match fuel with
  | O => Timeout
  | S fuel' =>
      if pos <? len text then
        c <- Py.getitem text pos ;;
        if Ascii.eqb c ":" then Ret (pos, bracketlevel)
        else if Py.mem c openers then
          '(bracketlevel', pos') <-
             skip_level fuel text (bracketlevel + 1) pos ;;
          findcolon_loop fuel' text bracketlevel' (pos' + 1)
        else findcolon_loop fuel' text bracketlevel (pos + 1)
      else Ret (-1, bracketlevel)
  end.

(** [findcolon(strXY)]; the two-element lists [strXY] and [colons] are
    pairs. *)
Definition findcolon (fuel : nat) (strXY : pystr * pystr) : result (Z * Z) :=
  '(colon0, bracketlevel) <- findcolon_loop fuel (fst strXY) 0 0 ;;
  '(colon1, _) <- findcolon_loop fuel (snd strXY) bracketlevel 0 ;;
  Ret (colon0, colon1).


(** ** [OnF4] *)

Definition separators : pystr :=
  [" "%char; tab] ++ lit "+-*/%<>&|^~=!()[]{}@,:.`;".

Definition blanks : pystr := [" "%char; tab].
Definition blanks_bracket : pystr := [" "%char; tab; "["%char].

(** What a search leaves in the local variables [posX], [posY], [str1],
    [str2], [abs1] and [abs2] when it sets its flag. *)
Record located : Type := Located {
  posX : Z;
  posY : Z;
  str1 : pystr;
  str2 : pystr;
  abs1 : pystr;
  abs2 : pystr
}.

(** [while text[temp] in [' ', chr(9)] and temp > 0: temp -= 1]. *)
Fixpoint skip_blanks_back (fuel : nat) (text : pystr) (temp : Z)
  : result Z :=
  match fuel with
  | O => Timeout
  | S fuel' =>
      c <- Py.getitem text temp ;;
      if Py.mem c blanks && (0 <? temp)
      then skip_blanks_back fuel' text (temp - 1)
      else Ret temp
  end.

(** [while text[temp] != ']' and temp < len(text): temp += 1]; the
    character is read before the bound is tested. *)
Fixpoint scan_to_close (fuel : nat) (text : pystr) (temp : Z) : result Z :=
  match fuel with
  | O => Timeout
  | S fuel' =>
      c <- Py.getitem text temp ;;
      if negb (Ascii.eqb c "]") && (temp <? len text)
      then scan_to_close fuel' text (temp + 1)
      else Ret temp
  end.

(** [while (text[posX] in [' ', chr(9), '[']) and (posX < len(text)):
    posX += 1]. *)
Fixpoint skip_open (fuel : nat) (text : pystr) (posX : Z) : result Z :=
  match fuel with
  | O => Timeout
  | S fuel' =>
      c <- Py.getitem text posX ;;
      if Py.mem c blanks_bracket && (posX <? len text)
      then skip_open fuel' text (posX + 1)
      else Ret posX
  end.

(** [text[temp] == 'S' and (temp == 0 or text[temp-1] in separators)],
    and the same test on [posS] without its first conjunct. *)
Definition at_start_or_after_separator (text : pystr) (temp : Z)
  : result bool :=
  if temp =? 0 then Ret true
  else c <- Py.getitem text (temp - 1) ;; Ret (Py.mem c separators).

Definition is_reference_start (text : pystr) (temp : Z) : result bool :=
  c <- Py.getitem text temp ;;
  if Ascii.eqb c "S" then at_start_or_after_separator text temp
  else Ret false.

(** Lines 338-366: the body run once the closing bracket is at [temp],
    with [posX] just after the opening bracket. *)
Definition split_inside (fuel : nat) (text : pystr) (posins posX temp : Z)
  : result located :=
  str1 <- findpos fuel (Py.slice text posX temp) ;;
  let posY := posX + len str1 + 1 in
  str2 <- findpos fuel (Py.slice text posY temp) ;;
  colons <- findcolon fuel (str1, str2) ;;
  if (fst colons =? -1) && (snd colons =? -1) then
    Ret (Located posX posY str1 str2
           (testXorYabsrel (lit "X") str1) (testXorYabsrel (lit "Y") str2))
  else if posins <=? posX + len str1 then
    if fst colons =? -1 then
      Ret (Located posX posY str1 str2
             (testXorYabsrel (lit "X") str1) (lit "-"))
    else
      let posY := posX + fst colons + 1 in
      let str2 := Py.slice_from str1 (fst colons + 1) in
      let str1 := Py.slice_to str1 (fst colons) in
      Ret (Located posX posY str1 str2
             (testXorYabsrel (lit "X") str1) (testXorYabsrel (lit "X") str2))
  else
    if snd colons =? -1 then
      Ret (Located posX posY str1 str2
             (lit "-") (testXorYabsrel (lit "Y") str2))
    else
      let posX := posY in
      let str1 := Py.slice_to str2 (snd colons) in
      let posY := posY + snd colons + 1 in
      let str2 := Py.slice_from str2 (snd colons + 1) in
      Ret (Located posX posY str1 str2
             (testXorYabsrel (lit "Y") str1) (testXorYabsrel (lit "Y") str2)).

(** Lines 326-366: [while posX > 1 and not(foundposin)]. [Some] is
    [foundposin = True]; the loop is left with [None] when [posX] has come
    down to 1. After a bracket that is not accepted, [posX] is the index
    after that bracket, as the source leaves it. *)
Fixpoint search_inside (fuel : nat) (text : pystr) (posins posX : Z)
  : result (option located) :=
  match fuel with
  | O => Timeout
  | S fuel' =>
      if 1 <? posX then
        let posX := posX - 1 in
        c <- Py.getitem text posX ;;
        if Ascii.eqb c "[" then
          let temp := posX - 1 in
          let posX := posX + 1 in
          temp <- skip_blanks_back fuel text temp ;;
          ok <- is_reference_start text temp ;;
          if ok then
            temp <- scan_to_close fuel text posins ;;
            c <- Py.getitem text temp ;;
            if Ascii.eqb c "]" then
              loc <- split_inside fuel text posins posX temp ;;
              Ret (Some loc)
            else search_inside fuel' text posins posX
          else search_inside fuel' text posins posX
        else search_inside fuel' text posins posX
      else Ret None
  end.

(** Lines 371-395: [while text[posS+1:].find('S') >= 0]. [Some] is
    [foundposout = True] followed by [break]. *)
Fixpoint search_first (fuel : nat) (text : pystr) (posS : Z)
  : result (option located) :=
  match fuel with
  | O => Timeout
  | S fuel' =>
      if 0 <=? Py.find (Py.slice_from text (posS + 1)) (lit "S") then
        let posS := Py.find text (lit "S") in
        ok <- at_start_or_after_separator text posS ;;
        if ok then
          if (Py.count (Py.slice_to text posS) dquote mod 2 =? 1)
             || (Py.count (Py.slice_to text posS) "'" mod 2 =? 1)
          then search_first fuel' text posS
          else
            c <- Py.getitem text (posS + 1) ;;
            if Py.mem c blanks_bracket then
              posX <- skip_open fuel text (posS + 1) ;;
              str1 <- findpos fuel (Py.slice_from text posX) ;;
              let posY := posX + len str1 + 1 in
              str2 <- findpos fuel (Py.slice_from text posY) ;;
              Ret (Some (Located posX posY str1 str2
                           (testXorYabsrel (lit "X") str1)
                           (testXorYabsrel (lit "Y") str2)))
            else search_first fuel' text posS
        else search_first fuel' text posS
      else Ret None
  end.

(** [abs1[1]], a one-character string. *)
Definition axis_of (absXY : pystr) : result pystr :=
  c <- Py.getitem absXY 1 ;; Ret [c].

(** Replace [text[pos : pos + len(old)]] by what [relorabs] makes of
    [old]: [text[:pos] + makeXorYrelorabs(...) + text[pos + len(old):]]. *)
Definition rewrite_one (text : pystr) (pos : Z) (absXY relorabs old : pystr)
  (posCursor : Z * Z) : result pystr :=
  xory <- axis_of absXY ;;
  new <- makeXorYrelorabs xory relorabs old posCursor ;;
  Ret (Py.slice_to text pos ++ new ++ Py.slice_from text (pos + len old)).

(** Replace both components and keep the one character between them:
    [text[:posX] + makeXorYrelorabs(...) + text[posX + len(str1)] +
     makeXorYrelorabs(...) + text[posY + len(str2):]]. *)
Definition rewrite_both (text : pystr) (loc : located)
  (relorabs1 relorabs2 : pystr) (posCursor : Z * Z) : result pystr :=
  xory1 <- axis_of (abs1 loc) ;;
  new1 <- makeXorYrelorabs xory1 relorabs1 (str1 loc) posCursor ;;
  sep <- Py.getitem text (posX loc + len (str1 loc)) ;;
  xory2 <- axis_of (abs2 loc) ;;
  new2 <- makeXorYrelorabs xory2 relorabs2 (str2 loc) posCursor ;;
  Ret (Py.slice_to text (posX loc) ++ new1 ++ [sep] ++ new2
         ++ Py.slice_from text (posY loc + len (str2 loc))).

(** Lines 402-420: the [if]/[elif] chain on [abs1[0]] and [abs2[0]]. *)
Definition cycle (text : pystr) (loc : located) (posCursor : Z * Z)
  : result pystr :=
  a1 <- Py.getitem (abs1 loc) 0 ;;
  a2 <- Py.getitem (abs2 loc) 0 ;;
  let A := Ascii.eqb "A" in
  let R := Ascii.eqb "R" in
  if A a1 && A a2 then
    rewrite_both text loc (lit "rel") (lit "rel") posCursor
  else if R a1 && R a2 then
    rewrite_one text (posY loc) (abs2 loc) (lit "abs") (str2 loc) posCursor
  else if R a1 && A a2 then
    rewrite_both text loc (lit "abs") (lit "rel") posCursor
  else if A a1 && R a2 then
    rewrite_one text (posY loc) (abs2 loc) (lit "abs") (str2 loc) posCursor
  else if A a1 then
    rewrite_one text (posX loc) (abs1 loc) (lit "rel") (str1 loc) posCursor
  else if A a2 then
    rewrite_one text (posY loc) (abs2 loc) (lit "rel") (str2 loc) posCursor
  else if R a1 then
    rewrite_one text (posX loc) (abs1 loc) (lit "abs") (str1 loc) posCursor
  else if R a2 then
    rewrite_one text (posY loc) (abs2 loc) (lit "abs") (str2 loc) posCursor
  else Ret text.

(** The search with the cursor inside, lines 324-366. *)
Definition cursor_inside (fuel : nat) (text : pystr) (posins : Z)
  : result (option located) :=
  if (1 <? posins) && (posins <? len text)
  then search_inside fuel text posins posins
  else Ret None.

(** [OnF4(text, posins, posCursor)]. [Ret None] is the [None] the source
    returns by reaching its end. *)
Definition OnF4 (fuel : nat) (text : pystr) (posins : Z) (posCursor : Z * Z)
  : result (option (pystr * Z)) :=
  foundposin <- cursor_inside fuel text posins ;;
  match foundposin with
  | Some loc =>
      text' <- cycle text loc posCursor ;;
      Ret (Some (text', posX loc))
  | None =>
      foundposout <- search_first fuel text (-1) ;;
      match foundposout with
      | Some loc =>
          text' <- cycle text loc posCursor ;;
          Ret (Some (text', 0))
      | None => Ret None
      end
  end.

(** ** The two searches together *)

(** The search phase of [OnF4]: what was located, and whether it was the
    search with the cursor inside ([foundposin]) that located it. *)
Definition locate (fuel : nat) (text : pystr) (posins : Z)
  : result (option (located * bool)) :=
  foundposin <- cursor_inside fuel text posins ;;
  match foundposin with
  | Some loc => Ret (Some (loc, true))
  | None =>
      foundposout <- search_first fuel text (-1) ;;
      match foundposout with
      | Some loc => Ret (Some (loc, false))
      | None => Ret None
      end
  end.

(** The pair [(abs1, abs2)] of a call, when a reference is located. *)
Definition classes (fuel : nat) (text : pystr) (posins : Z)
  : result (option (pystr * pystr)) :=
  r <- locate fuel text posins ;;
  Ret (option_map (fun p => (abs1 (fst p), abs2 (fst p))) r).

(** The axis names the program uses. *)
Definition axis (xory : pystr) : Prop := xory = lit "X" \/ xory = lit "Y".

(** ** Finished calls *)

(** The call has returned or raised within its budget. *)
Definition is_done {A : Type} (r : result A) : Prop :=
  match r with
  | Timeout => False
  | _ => True
  end.

(** [c'] is [c] run on a larger budget. *)
Definition extends {A : Type} (c c' : result A) : Prop :=
  is_done c -> c' = c.

(** ** Notions used in the proofs *)

(** The number a run of digits stands for, on top of [acc]. *)
Definition value (ds : pystr) (acc : Z) : Z :=
  fold_left (fun a c => 10 * a + Py.digit_val c) ds acc.

(** [posCursor[0]] for the axis X and [posCursor[1]] otherwise, as
    [makeXorYrel] and [makeXorYabs] choose it. *)
Definition coordinate (xory : pystr) (posCursor : Z * Z) : Z :=
  if Py.streq xory (lit "X") then fst posCursor else snd posCursor.

(** The text [makeXorYrel] writes for the offset [diff]. *)
Definition relative (xory : pystr) (diff : Z) : pystr :=
  if 0 <? diff then xory ++ lit " + " ++ Py.str diff
  else xory ++ lit " - " ++ Py.str (- diff).

(** A character that neither [findpos] nor [findcolon] nor the scan for
    the closing bracket reacts to. *)
Definition plain (c : ascii) : bool := negb (Py.mem c (lit ",:([{]")).

(** The text before a reference the search with the cursor inside
    accepts, [P], and the text after its two components, [R]: [P] ends
    with the opening bracket, an [S] stands before the bracket and the
    blanks in front of it, at the start of the text or after a separator,
    and [R] starts with a comma or the closing bracket and holds a
    closing bracket. *)
Definition anchored_inside (fuel0 : nat) (P R : pystr) : Prop :=
  2 <= len P
  /\ Py.getitem P (len P - 1) = Ret "["%char
  /\ (exists temp0,
        skip_blanks_back fuel0 P (len P - 2) = Ret temp0
        /\ 0 <= temp0 < len P
        /\ is_reference_start P temp0 = Ret true)
  /\ In "]"%char R
  /\ (exists c r, R = c :: r /\ (c = ","%char \/ c = "]"%char)).



(** The classification [OnF4] reads off a value of [testXorYabsrel]: its
    [if]/[elif] chain tests [absXY[0]] for ['A'] and for ['R'] and treats
    every other value, ['C' + xory] and ['-'], alike. *)
Definition classification_of (absXY : pystr) : Spec.classification :=
  match absXY with
  | c :: _ =>
      if Ascii.eqb c "A" then Spec.Absolute
      else if Ascii.eqb c "R" then Spec.Relative
      else Spec.Complex
  | [] => Spec.Complex
  end.


(** The text with the components [a] and [b] between [P] and [R]. *)
Definition spliced (P a b R : pystr) : pystr :=
  P ++ a ++ ","%char :: b ++ R.

(** What the searches leave for [spliced P a b R]. *)
Definition located_in (P a b : pystr) : located :=
  Located (len P) (len P + len a + 1) a b
    (testXorYabsrel (lit "X") a) (testXorYabsrel (lit "Y") b).

(** ** The other pure functions of [parsers.py] *)

(** [color_pack2rgb(packed)]: the tuple [(r, g, b)]. *)
Definition color_pack2rgb (packed : Z) : Z * Z * Z :=
  let r := Z.land packed 255 in
  let g := Z.shiftr (Z.land packed (Z.shiftl 255 8)) 8 in
  let b := Z.shiftr (Z.land packed (Z.shiftl 255 16)) 16 in
  (r, g, b).

(** [color_rgb2pack(r, g, b)]. *)
Definition color_rgb2pack (r g b : Z) : Z :=
  r + Z.shiftl g 8 + Z.shiftl b 16.

(** [unquote_string(code)]: [code[0]] raises on the empty string. *)
Definition unquote_string (code : pystr) : result pystr :=
  c <- Py.getitem code 0 ;;
  let start := if Py.mem c [dquote; "'"%char] then 1 else 2 in
  Ret (Py.slice code start (-1)).

(** [s.strip()]: without the whitespace at both ends. *)
Definition strip (s : pystr) : pystr :=
  rev (Py.lstrip (rev (Py.lstrip s))).

Definition is_none {A : Type} (o : option A) : bool :=
  match o with
  | None => true
  | Some _ => false
  end.

Definition same_paren (o : option ascii) (char : ascii) : bool :=
  match o with
  | Some q => Ascii.eqb q char
  | None => false
  end.

(** The first [if]/[elif] chain of the loop body of
    [parse_dict_strings]: the new [level] and [curr_paren]. *)
Definition track (char : ascii) (level : Z) (curr_paren : option ascii)
  : Z * option ascii :=
  if Py.mem char (lit "([{") && is_none curr_paren
  then (level + 1, curr_paren)
  else if Py.mem char (lit ")]}") && is_none curr_paren
  then (level - 1, curr_paren)
  else if Py.mem char [dquote; "'"%char] then
    if same_paren curr_paren char then (level, None)
    else if is_none curr_paren then (level, Some char)
    else (level, curr_paren)
  else (level, curr_paren).

(** [for i, char in enumerate(code)], on what is left of [code], and the
    [yield] after the loop. [i] is the index of the next character and
    [last] the value the loop variable [i] of the source has, which stays
    0 when [code] is empty. The elements the generator yields are given
    as a list, in the order it yields them. *)
Fixpoint parse_dict_loop (code rest : pystr) (i last : Z)
  (level chunk_start : Z) (curr_paren : option ascii) : list pystr :=
  match rest with
  | [] => [strip (Py.slice code chunk_start (last + 1))]
  | char :: rest' =>
      let (level, curr_paren) := track char level curr_paren in
      if (level =? 0) && Py.mem char (lit ":,") && is_none curr_paren
      then strip (Py.slice code chunk_start i)
           :: parse_dict_loop code rest' (i + 1) i level (i + 1) curr_paren
      else parse_dict_loop code rest' (i + 1) i level chunk_start curr_paren
  end.

(** [parse_dict_strings(code)]. *)
Definition parse_dict_strings (code : pystr) : list pystr :=
  parse_dict_loop code code 0 0 0 0 None.

(** [a > b] on strings: by the first character that differs, a proper
    prefix being smaller. *)
Fixpoint str_gt (a b : pystr) : bool :=
  match a, b with
  | [], _ => false
  | _ :: _, [] => true
  | x :: a', y :: b' =>
      if (nat_of_ascii y <? nat_of_ascii x)%nat then true
      else if (nat_of_ascii x <? nat_of_ascii y)%nat then false
      else str_gt a' b'
  end.

(** [max(strings)] of a list that is not empty: the first of the largest
    elements. *)
Definition max_string (first : pystr) (others : list pystr) : pystr :=
  fold_left (fun m s => if str_gt s m then s else m) others first.

(** [gen_start_strings(string)]: [string[:i]] for [i] from 1 to
    [len(string)]. *)
Definition gen_start_strings (string : pystr) : list pystr :=
  map (fun i => Py.slice_to string (Z.of_nat i)) (seq 1 (length string)).

(** [string.startswith(start_string)]. *)
Definition startswith (string start_string : pystr) : bool :=
  Py.prefixb start_string string.

(** The [for] loop of [common_start] over the start strings that are
    left, [start_string] being the value of the loop variable so far. *)
Fixpoint common_start_loop (strings : list pystr) (starts : list pystr)
  (start_string : pystr) : pystr :=
  match starts with
  | [] => start_string
  | start_string' :: starts' =>
      if negb (forallb (fun string => startswith string start_string')
                 strings)
      then Py.slice_to start_string' (-1)
      else common_start_loop strings starts' start_string'
  end.

(** [common_start(strings)]. *)
Definition common_start (strings : list pystr) : pystr :=
  match strings with
  | [] => lit ""
  | first :: others =>
      common_start_loop strings
        (gen_start_strings (max_string first others)) (lit "")
  end.

(** ** More notions used in the proofs *)

(** [code] split at every colon and comma. *)
Fixpoint split_flat (code chunk : pystr) : list pystr :=
  match code with
  | [] => [rev chunk]
  | char :: code' =>
      if Py.mem char (lit ":,") then rev chunk :: split_flat code' []
      else split_flat code' (char :: chunk)
  end.

(** ** Notions the theorems on texts are stated with *)



(** An [eval] that raises on every text that is no integer expression,
    to apply the theorems to sample inputs. *)
Definition raising : pystr -> pyvalue + exn := fun _ => inr EvalError.

(** The start of a reference that follows the text [Q]: an [S], blanks,
    the opening bracket. *)
Definition reference_open (Q bl : pystr) : pystr :=
  Q ++ "S"%char :: bl ++ ["["%char].

(** [Q] is empty or ends with a separator, so an [S] that follows it
    starts a name. *)
Definition after_separator (Q : pystr) : Prop :=
  Q = [] \/ exists q c, Q = q ++ [c] /\ Py.mem c separators = true.

(** What follows the two components of a reference: the closing bracket,
    or a comma, further text and a closing bracket. *)
Definition reference_close (R : pystr) : Prop :=
  (exists c r, R = c :: r /\ (c = ","%char \/ c = "]"%char))
  /\ In "]"%char R.



(** The first-reference search takes no [S] of the text for the start of
    a reference, and ends: the text has no [S]; or it has one [S], and
    that [S] follows a character that is no separator, or follows an odd
    number of quote marks of one kind, or is followed by a character that
    is no blank and no opening bracket. *)
Definition no_reference_start (text : pystr) : Prop :=
  forallb (fun c => negb (Ascii.eqb c "S")) text = true
  \/ exists Q T,
       text = Q ++ "S"%char :: T
       /\ forallb (fun c => negb (Ascii.eqb c "S")) Q = true
       /\ forallb (fun c => negb (Ascii.eqb c "S")) T = true
       /\ ((exists q c, Q = q ++ [c] /\ Py.mem c separators = false)
           \/ (Py.count Q dquote mod 2 =? 1)
              || (Py.count Q "'" mod 2 =? 1) = true
           \/ (exists c t, T = c :: t /\ Py.mem c blanks_bracket = false)).

(** * Properties *)

(** ** Sample runs *)

Example eval_ex1 : Eval.eval (lit " 0 - 2") = Some (-2). Proof. reflexivity. Qed.
Example eval_ex2 : Eval.eval (lit "0 + 12*(3 - 1)//5") = Some 4. Proof. reflexivity. Qed.
Example eval_ex3 : Eval.eval (lit "0 a") = None. Proof. reflexivity. Qed.
Example eval_ex4 : Eval.eval (lit "-7 // 2") = Some (-4). Proof. reflexivity. Qed.
Example eval_ex5 : Eval.eval (lit "0]") = None. Proof. reflexivity. Qed.
Example int_ex1 : Py.int (lit " 4") = Some 4. Proof. reflexivity. Qed.
Example int_ex2 : Py.int (lit "-12 ") = Some (-12). Proof. reflexivity. Qed.
Example int_ex3 : Py.int (lit "4]") = None. Proof. reflexivity. Qed.
Example int_ex4 : Py.int (lit "") = None. Proof. reflexivity. Qed.
Example str_ex1 : Py.str (-120) = lit "-120". Proof. reflexivity. Qed.
Example str_ex2 : Py.str 0 = lit "0". Proof. reflexivity. Qed.
Example str_ex3 : Py.str 99999999999999999999 = lit "99999999999999999999". Proof. reflexivity. Qed.
Example slice_ex1 : Py.slice (lit "abcdef") (-3) 5 = lit "de". Proof. reflexivity. Qed.
Example find_ex1 : Py.find (lit "abcdef") (lit "cd") = 2. Proof. reflexivity. Qed.
Example findpos_ex1 : findpos 20 (lit "3, 4") = Ret (lit "3"). Proof. reflexivity. Qed.
Example findpos_ex2 : findpos 20 (lit "(a),b") = Ret (lit "(a),b"). Proof. reflexivity. Qed.
Example findpos_ex3 : findpos 20 (lit "(a))x,b") = Ret (lit "(a))x"). Proof. reflexivity. Qed.
Example findpos_ex4 : findpos 20 (lit "(a)),b") = Ret (lit "(a)),b"). Proof. reflexivity. Qed.
Example findcolon_ex1 : findcolon 20 (lit "(", lit "(x)) :y") = Ret (-1, -1). Proof. reflexivity. Qed.
Example findcolon_ex2 : findcolon 20 (lit "", lit "(x)) :y") = Ret (-1, 5). Proof. reflexivity. Qed.
Example OnF4_ex1 : OnF4 20 (lit "S[3, 4]") 3 (0, 0) = Ret (Some (lit "S[X + 3,Y + 4]", 2)).
Proof. reflexivity. Qed.
Example OnF4_ex2 : OnF4 20 (lit "S[3, 4]") 0 (0, 0) = Ret (Some (lit "S[X + 3, 4]", 0)).
Proof. reflexivity. Qed.
Example OnF4_ex3 : OnF4 20 (lit "S[X + 3,Y + 4]") 2 (0, 0) = Ret (Some (lit "S[X + 3,4]", 2)).
Proof. reflexivity. Qed.
Example OnF4_ex4 : OnF4 20 (lit "S[X + 3,4]") 2 (0, 0) = Ret (Some (lit "S[3,Y + 4]", 2)).
Proof. reflexivity. Qed.
Example OnF4_ex5 : OnF4 20 (lit "S[3,Y + 4]") 2 (0, 0) = Ret (Some (lit "S[3,4]", 2)).
Proof. reflexivity. Qed.
Example OnF4_ex6 : OnF4 20 (lit "S[3, 4") 3 (0, 0) = Raise IndexError.
Proof. reflexivity. Qed.
Example OnF4_ex7 : OnF4 20 (lit "S[X+1, Y-2]") 3 (5, 5) = Ret (Some (lit "S[X+1,3]", 2)).
Proof. reflexivity. Qed.
Example OnF4_ex8 : OnF4 20 (lit "S[1:2, 3]") 3 (0, 0) = Ret (Some (lit "S[X + 1:X + 2, 3]", 2)).
Proof. reflexivity. Qed.
Example OnF4_ex9 : OnF4 20 (lit "S[5, 1:2]") 6 (0, 0) = Ret (Some (lit "S[5,Y + 1:Y + 2]", 4)).
Proof. reflexivity. Qed.
Example OnF4_ex10 : OnF4 20 (lit "S[a,b]") 3 (0, 0) = Ret (Some (lit "S[a,b]", 2)).
Proof. reflexivity. Qed.
Example OnF4_ex11 : OnF4 20 (lit "aS S[1,2]") 0 (0, 0) = Timeout.
Proof. reflexivity. Qed.
Example OnF4_ex12 : OnF4 20 (lit "a[1]") 2 (0, 0) = Timeout.
Proof. reflexivity. Qed.
Example OnF4_ex13 : OnF4 20 (lit "hello") 2 (0, 0) = Ret None.
Proof. reflexivity. Qed.

(** ** A larger budget does not change a finished call *)

Lemma bind_done {A B : Type} (c : result A) (k : A -> result B) :
  is_done (bind c k) -> is_done c.
Proof. destruct c; simpl; auto. Qed.

Lemma extends_refl {A : Type} (c : result A) : extends c c.
Proof. intros _. reflexivity. Qed.

Lemma extends_bind {A B : Type} (c c' : result A) (k k' : A -> result B) :
  extends c c' -> (forall a, extends (k a) (k' a)) ->
  extends (bind c k) (bind c' k').
Proof.
  intros Hc Hk Hd. pose proof (bind_done _ _ Hd) as Hdc.
  rewrite (Hc Hdc). destruct c; simpl in *; auto. apply Hk; auto.
Qed.

Lemma extends_if {A : Type} (b : bool) (c1 c1' c2 c2' : result A) :
  extends c1 c1' -> extends c2 c2' ->
  extends (if b then c1 else c2) (if b then c1' else c2').
Proof. destruct b; auto. Qed.

Lemma extends_timeout {A : Type} (c : result A) : extends Timeout c.
Proof. intros []. Qed.

Ltac extends_step :=
  match goal with
  | |- extends (bind _ _) (bind _ _) => apply extends_bind; [ | intros ? ]
  | |- extends (if ?b then _ else _) (if ?b then _ else _) =>
      apply extends_if
  | |- extends (match ?x with (_ , _) => _ end) _ => destruct x
  | |- extends (match ?x with Some _ => _ | None => _ end) _ => destruct x
  | |- extends ?c ?c => apply extends_refl
  end.

Lemma skip_level_mono fuel fuel' text bracketlevel pos :
  (fuel <= fuel')%nat ->
  extends (skip_level fuel text bracketlevel pos)
          (skip_level fuel' text bracketlevel pos).
Proof.
  revert fuel' bracketlevel pos.
  induction fuel as [|fuel IH]; intros fuel' bracketlevel pos Hle;
    [apply extends_timeout|].
  destruct fuel' as [|fuel']; [lia|]. simpl.
  repeat extends_step. apply IH. lia.
Qed.

Lemma findpos_loop_mono fuel fuel' text bracketlevel pos :
  (fuel <= fuel')%nat ->
  extends (findpos_loop fuel text bracketlevel pos)
          (findpos_loop fuel' text bracketlevel pos).
Proof.
  revert fuel' bracketlevel pos.
  induction fuel as [|fuel IH]; intros fuel' bracketlevel pos Hle;
    [apply extends_timeout|].
  destruct fuel' as [|fuel']; [lia|].
  cbn [findpos_loop].
  repeat extends_step; try (apply IH; lia).
  apply skip_level_mono; lia.
Qed.

Lemma findpos_mono fuel fuel' text :
  (fuel <= fuel')%nat -> extends (findpos fuel text) (findpos fuel' text).
Proof. apply findpos_loop_mono. Qed.

Lemma findcolon_loop_mono fuel fuel' text bracketlevel pos :
  (fuel <= fuel')%nat ->
  extends (findcolon_loop fuel text bracketlevel pos)
          (findcolon_loop fuel' text bracketlevel pos).
Proof.
  revert fuel' bracketlevel pos.
  induction fuel as [|fuel IH]; intros fuel' bracketlevel pos Hle;
    [apply extends_timeout|].
  destruct fuel' as [|fuel']; [lia|].
  cbn [findcolon_loop].
  repeat extends_step; try (apply IH; lia).
  apply skip_level_mono; lia.
Qed.

Lemma findcolon_mono fuel fuel' strXY :
  (fuel <= fuel')%nat ->
  extends (findcolon fuel strXY) (findcolon fuel' strXY).
Proof.
  intros Hle. unfold findcolon.
  repeat extends_step; apply findcolon_loop_mono; lia.
Qed.

Lemma skip_blanks_back_mono fuel fuel' text temp :
  (fuel <= fuel')%nat ->
  extends (skip_blanks_back fuel text temp)
          (skip_blanks_back fuel' text temp).
Proof.
  revert fuel' temp.
  induction fuel as [|fuel IH]; intros fuel' temp Hle;
    [apply extends_timeout|].
  destruct fuel' as [|fuel']; [lia|]. simpl.
  repeat extends_step. apply IH. lia.
Qed.

Lemma scan_to_close_mono fuel fuel' text temp :
  (fuel <= fuel')%nat ->
  extends (scan_to_close fuel text temp) (scan_to_close fuel' text temp).
Proof.
  revert fuel' temp.
  induction fuel as [|fuel IH]; intros fuel' temp Hle;
    [apply extends_timeout|].
  destruct fuel' as [|fuel']; [lia|]. simpl.
  repeat extends_step. apply IH. lia.
Qed.

Lemma skip_open_mono fuel fuel' text posX :
  (fuel <= fuel')%nat ->
  extends (skip_open fuel text posX) (skip_open fuel' text posX).
Proof.
  revert fuel' posX.
  induction fuel as [|fuel IH]; intros fuel' posX Hle;
    [apply extends_timeout|].
  destruct fuel' as [|fuel']; [lia|]. simpl.
  repeat extends_step. apply IH. lia.
Qed.

Lemma split_inside_mono fuel fuel' text posins posX temp :
  (fuel <= fuel')%nat ->
  extends (split_inside fuel text posins posX temp)
          (split_inside fuel' text posins posX temp).
Proof.
  intros Hle. unfold split_inside.
  repeat extends_step;
    first [apply findpos_mono | apply findcolon_mono]; lia.
Qed.

Lemma search_inside_mono fuel fuel' text posins posX :
  (fuel <= fuel')%nat ->
  extends (search_inside fuel text posins posX)
          (search_inside fuel' text posins posX).
Proof.
  revert fuel' posX.
  induction fuel as [|fuel IH]; intros fuel' posX Hle;
    [apply extends_timeout|].
  destruct fuel' as [|fuel']; [lia|].
  cbn [search_inside].
  repeat extends_step; try (apply IH; lia).
  - apply skip_blanks_back_mono; lia.
  - apply scan_to_close_mono; lia.
  - apply split_inside_mono; lia.
Qed.

Lemma search_first_mono fuel fuel' text posS :
  (fuel <= fuel')%nat ->
  extends (search_first fuel text posS) (search_first fuel' text posS).
Proof.
  revert fuel' posS.
  induction fuel as [|fuel IH]; intros fuel' posS Hle;
    [apply extends_timeout|].
  destruct fuel' as [|fuel']; [lia|].
  cbn [search_first].
  repeat extends_step; try (apply IH; lia).
  - apply skip_open_mono; lia.
  - apply findpos_mono; lia.
  - apply findpos_mono; lia.
Qed.

Lemma cursor_inside_mono fuel fuel' text posins :
  (fuel <= fuel')%nat ->
  extends (cursor_inside fuel text posins) (cursor_inside fuel' text posins).
Proof.
  intros Hle. unfold cursor_inside.
  repeat extends_step. apply search_inside_mono; lia.
Qed.

(** Once [OnF4] has returned or raised with some budget, it does the same
    with every larger one. *)
Lemma OnF4_mono fuel fuel' text posins posCursor :
  (fuel <= fuel')%nat ->
  extends (OnF4 fuel text posins posCursor)
          (OnF4 fuel' text posins posCursor).
Proof.
  intros Hle. unfold OnF4.
  repeat extends_step.
  - apply cursor_inside_mono; lia.
  - apply search_first_mono; lia.
Qed.

Lemma locate_mono fuel fuel' text posins :
  (fuel <= fuel')%nat ->
  extends (locate fuel text posins) (locate fuel' text posins).
Proof.
  intros Hle. unfold locate.
  repeat extends_step.
  - apply cursor_inside_mono; lia.
  - apply search_first_mono; lia.
Qed.

Lemma classes_mono fuel fuel' text posins :
  (fuel <= fuel')%nat ->
  extends (classes fuel text posins) (classes fuel' text posins).
Proof.
  intros Hle. unfold classes.
  repeat extends_step. apply locate_mono; lia.
Qed.

(** Two finished runs of the same call agree, whatever their budgets. *)
Lemma OnF4_unique fuel1 fuel2 text posins posCursor :
  is_done (OnF4 fuel1 text posins posCursor) ->
  is_done (OnF4 fuel2 text posins posCursor) ->
  OnF4 fuel1 text posins posCursor = OnF4 fuel2 text posins posCursor.
Proof.
  intros H1 H2.
  rewrite <- (OnF4_mono fuel1 (Nat.max fuel1 fuel2) text posins posCursor
                (Nat.le_max_l _ _) H1).
  apply (OnF4_mono fuel2 (Nat.max fuel1 fuel2) text posins posCursor
           (Nat.le_max_r _ _) H2).
Qed.

(** ** [OnF4] is the search followed by the cycle *)

Lemma OnF4_locate fuel text posins posCursor :
  OnF4 fuel text posins posCursor =
  (r <- locate fuel text posins ;;
   match r with
   | Some (loc, inside) =>
       text' <- cycle text loc posCursor ;;
       Ret (Some (text', if inside then posX loc else 0))
   | None => Ret None
   end).
Proof.
  unfold OnF4, locate.
  destruct (cursor_inside fuel text posins) as [[loc|]| |]; simpl; auto.
  destruct (search_first fuel text (-1)) as [[loc|]| |]; simpl; auto.
Qed.

(** ** The scenario [S[3, 4]] *)

(** C2, amended: on the text [S[3, 4]] with the anchor at (0, 0), every
    cursor offset from 2 to 6, the offsets for which the search with the
    cursor inside runs, makes both components Absolute, and [OnF4]
    rewrites the text to [S[X + 3,Y + 4]] and returns the cursor offset
    2. *)
Theorem OnF4_S34 (fuel : nat) (posins : Z) :
  (20 <= fuel)%nat -> 2 <= posins <= 6 ->
  classes fuel (lit "S[3, 4]") posins = Ret (Some (lit "AX", lit "AY"))
  /\ OnF4 fuel (lit "S[3, 4]") posins (0, 0)
     = Ret (Some (lit "S[X + 3,Y + 4]", 2)).
Proof.
  intros Hfuel Hpos.
  assert (Hcases : posins = 2 \/ posins = 3 \/ posins = 4 \/ posins = 5
                   \/ posins = 6) by lia.
  repeat (destruct Hcases as [-> | Hcases]); try subst posins;
    (split;
     [ rewrite (classes_mono 20 fuel _ _ Hfuel); [reflexivity | exact I]
     | rewrite (OnF4_mono 20 fuel _ _ _ Hfuel); [reflexivity | exact I] ]).
Qed.

(** ** Malformed references *)

(** C3: the program raises where the claim says it does not. Without a
    closing bracket after the cursor the scan for it indexes past the end
    of the text; in the first-reference search an [S] that ends the text,
    and blanks or brackets that run to the end of the text, do the
    same. *)
Theorem OnF4_malformed_raises :
  OnF4 20 (lit "S[3, 4") 3 (0, 0) = Raise IndexError
  /\ OnF4 20 (lit "x + S") 0 (0, 0) = Raise IndexError
  /\ OnF4 20 (lit "S[ ") 0 (0, 0) = Raise IndexError.
Proof. repeat split; reflexivity. Qed.

(** ** Termination *)

Lemma search_first_stuck (fuel : nat) :
  search_first fuel (lit "aS S[1,2]") (-1) = Timeout
  /\ search_first fuel (lit "aS S[1,2]") 1 = Timeout.
Proof.
  induction fuel as [|fuel [IH1 IH2]]; [split; reflexivity|].
  split.
  - transitivity (search_first fuel (lit "aS S[1,2]") 1);
      [reflexivity | exact IH2].
  - transitivity (search_first fuel (lit "aS S[1,2]") 1);
      [reflexivity | exact IH2].
Qed.

Lemma search_inside_stuck (fuel : nat) :
  search_inside fuel (lit "a[1]") 2 2 = Timeout.
Proof.
  induction fuel as [|fuel IH]; [reflexivity|].
  transitivity (search_inside fuel (lit "a[1]") 2 2);
    [ | exact IH].
  destruct fuel; reflexivity.
Qed.

(** C4: the program does not terminate where the claim says it does. The
    first-reference search takes [text.find('S')] anew in every iteration,
    so after a first [S] that is not accepted and is followed by another
    [S] the loop repeats the same iteration; the search with the cursor
    inside moves [posX] back behind a bracket that is not accepted and
    meets that bracket again. No budget is enough for either call. *)
Theorem OnF4_diverges (fuel : nat) :
  OnF4 fuel (lit "aS S[1,2]") 0 (0, 0) = Timeout
  /\ OnF4 fuel (lit "a[1]") 2 (0, 0) = Timeout.
Proof.
  split.
  - unfold OnF4, cursor_inside.
    change ((1 <? 0) && (0 <? len (lit "aS S[1,2]"))) with false.
    cbn [bind]. rewrite (proj1 (search_first_stuck fuel)). reflexivity.
  - unfold OnF4, cursor_inside.
    change ((1 <? 2) && (2 <? len (lit "a[1]"))) with true.
    cbv iota. rewrite search_inside_stuck. reflexivity.
Qed.

(** ** Indexing and slicing *)

Lemma len_nonneg t : 0 <= len t.
Proof. unfold len. lia. Qed.

Lemma len_app t u : len (t ++ u) = len t + len u.
Proof. unfold len. rewrite length_app. lia. Qed.

Lemma len_cons c t : len (c :: t) = 1 + len t.
Proof. unfold len. simpl length. lia. Qed.

Lemma len_nil : len [] = 0.
Proof. reflexivity. Qed.

Lemma slice_to_firstn t i :
  0 <= i -> Py.slice_to t i = firstn (Z.to_nat i) t.
Proof.
  intros Hi. unfold Py.slice_to, Py.slice, Py.clip.
  pose proof (len_nonneg t) as Hl.
  replace (0 <? 0) with false by reflexivity.
  replace (i <? 0) with false by (symmetry; apply Z.ltb_ge; lia).
  rewrite (Z.min_l 0 (len t)) by lia. rewrite Z.sub_0_r. cbn [Z.to_nat skipn].
  destruct (Z.le_ge_cases i (len t)) as [H|H].
  - rewrite Z.min_l by lia. reflexivity.
  - rewrite Z.min_r by lia.
    unfold len in *. rewrite !firstn_all2 by lia. reflexivity.
Qed.

Lemma slice_from_skipn t i :
  0 <= i -> Py.slice_from t i = skipn (Z.to_nat i) t.
Proof.
  intros Hi. unfold Py.slice_from, Py.slice, Py.clip.
  pose proof (len_nonneg t) as Hl.
  replace (i <? 0) with false by (symmetry; apply Z.ltb_ge; lia).
  replace (len t <? 0) with false by (symmetry; apply Z.ltb_ge; lia).
  rewrite Z.min_id.
  destruct (Z.le_ge_cases i (len t)) as [H|H].
  - rewrite Z.min_l by lia.
    apply firstn_all2. rewrite length_skipn. unfold len in *. lia.
  - rewrite Z.min_r by lia. rewrite Z.sub_diag. cbn [Z.to_nat firstn].
    unfold len in *. rewrite skipn_all2 by lia. reflexivity.
Qed.

Lemma slice_firstn_skipn t a b :
  0 <= a <= b -> b <= len t ->
  Py.slice t a b = firstn (Z.to_nat (b - a)) (skipn (Z.to_nat a) t).
Proof.
  intros Ha Hb. unfold Py.slice, Py.clip.
  replace (a <? 0) with false by (symmetry; apply Z.ltb_ge; lia).
  replace (b <? 0) with false by (symmetry; apply Z.ltb_ge; lia).
  rewrite !Z.min_l by lia. reflexivity.
Qed.

Lemma slice_to_app t u : Py.slice_to (t ++ u) (len t) = t.
Proof.
  rewrite slice_to_firstn by apply len_nonneg.
  unfold len. rewrite Nat2Z.id, firstn_app, Nat.sub_diag, firstn_all.
  cbn [firstn]. apply app_nil_r.
Qed.

Lemma slice_from_app t u : Py.slice_from (t ++ u) (len t) = u.
Proof.
  rewrite slice_from_skipn by apply len_nonneg.
  unfold len. rewrite Nat2Z.id, skipn_app, Nat.sub_diag, skipn_all.
  reflexivity.
Qed.

Lemma slice_app t m u :
  Py.slice (t ++ m ++ u) (len t) (len t + len m) = m.
Proof.
  pose proof (len_nonneg t). pose proof (len_nonneg m).
  pose proof (len_nonneg u).
  rewrite slice_firstn_skipn by (rewrite ?len_app; lia).
  replace (len t + len m - len t) with (len m) by lia.
  unfold len. rewrite !Nat2Z.id, skipn_app, Nat.sub_diag, skipn_all.
  cbn [skipn app]. rewrite firstn_app, Nat.sub_diag, firstn_all.
  cbn [firstn]. apply app_nil_r.
Qed.

Lemma getitem_nth t i c :
  0 <= i -> nth_error t (Z.to_nat i) = Some c -> Py.getitem t i = Ret c.
Proof.
  intros Hi Hn. unfold Py.getitem.
  replace (i <? 0) with false by (symmetry; apply Z.ltb_ge; lia).
  assert (Hlt : (Z.to_nat i < length t)%nat)
    by (apply nth_error_Some; rewrite Hn; discriminate).
  replace (0 <=? i) with true by (symmetry; apply Z.leb_le; lia).
  replace (i <? len t) with true
    by (symmetry; apply Z.ltb_lt; unfold len; lia).
  cbn [andb]. rewrite Hn. reflexivity.
Qed.

Lemma getitem_app_here t c u : Py.getitem (t ++ c :: u) (len t) = Ret c.
Proof.
  apply getitem_nth; [apply len_nonneg|].
  unfold len. rewrite Nat2Z.id, nth_error_app2, Nat.sub_diag by lia.
  reflexivity.
Qed.

Lemma getitem_app_left t u i :
  0 <= i < len t -> Py.getitem (t ++ u) i = Py.getitem t i.
Proof.
  intros Hi. unfold Py.getitem. pose proof (len_nonneg u).
  replace (i <? 0) with false by (symmetry; apply Z.ltb_ge; lia).
  replace (0 <=? i) with true by (symmetry; apply Z.leb_le; lia).
  replace (i <? len t) with true by (symmetry; apply Z.ltb_lt; lia).
  replace (i <? len (t ++ u)) with true
    by (symmetry; apply Z.ltb_lt; rewrite len_app; lia).
  cbn [andb]. rewrite nth_error_app1 by (unfold len in *; lia).
  reflexivity.
Qed.

(** Reading inside the text gives a character and splits the text
    there. *)
Lemma getitem_split t i c :
  0 <= i -> Py.getitem t i = Ret c ->
  exists u w, t = u ++ c :: w /\ len u = i.
Proof.
  intros Hi. unfold Py.getitem.
  replace (i <? 0) with false by (symmetry; apply Z.ltb_ge; lia).
  destruct ((0 <=? i) && (i <? len t)); [|discriminate].
  destruct (nth_error t (Z.to_nat i)) as [c'|] eqn:Hn; [|discriminate].
  intros [= ->]. apply nth_error_split in Hn.
  destruct Hn as (u & w & -> & Hlen).
  exists u, w. split; [reflexivity|]. unfold len. lia.
Qed.

Lemma getitem_inside t i :
  0 <= i < len t -> exists c, Py.getitem t i = Ret c.
Proof.
  intros Hi.
  destruct (nth_error t (Z.to_nat i)) as [c|] eqn:Hn.
  - exists c. apply getitem_nth; [lia | exact Hn].
  - apply nth_error_None in Hn. unfold len in Hi. lia.
Qed.

(** ** [find] *)

Lemma find_from_lower sub t i : 0 <= i -> -1 <= Py.find_from sub t i.
Proof.
  revert i. induction t as [|c t IH]; intros i Hi; simpl.
  - destruct (Py.prefixb sub []); lia.
  - destruct (Py.prefixb sub (c :: t)); [lia|].
    specialize (IH (i + 1)). lia.
Qed.

Lemma find_from_shift sub t i :
  Py.find_from sub t i
  = if Py.find_from sub t 0 <? 0 then -1 else Py.find_from sub t 0 + i.
Proof.
  revert i. induction t as [|c t IH]; intros i; simpl.
  - destruct (Py.prefixb sub []); reflexivity.
  - destruct (Py.prefixb sub (c :: t)); [reflexivity|].
    rewrite (IH (i + 1)), (IH 1).
    pose proof (find_from_lower sub t 0 ltac:(lia)) as Hl.
    destruct (Py.find_from sub t 0 <? 0) eqn:E; [reflexivity|].
    apply Z.ltb_ge in E.
    replace (Py.find_from sub t 0 + 1 <? 0) with false
      by (symmetry; apply Z.ltb_ge; lia).
    lia.
Qed.

Lemma find_cons sub c t :
  Py.find (c :: t) sub
  = if Py.prefixb sub (c :: t) then 0
    else if Py.find t sub <? 0 then -1 else Py.find t sub + 1.
Proof.
  unfold Py.find. cbn [Py.find_from].
  destruct (Py.prefixb sub (c :: t)); [reflexivity|].
  apply find_from_shift.
Qed.


Lemma slice_from_cons c t i :
  0 <= i -> Py.slice_from (c :: t) (i + 1) = Py.slice_from t i.
Proof.
  intros Hi. rewrite !slice_from_skipn by lia.
  replace (Z.to_nat (i + 1)) with (S (Z.to_nat i)) by lia. reflexivity.
Qed.

Lemma slice_to_0 t : Py.slice_to t 0 = [].
Proof. rewrite slice_to_firstn by lia. reflexivity. Qed.

Lemma slice_from_0 t : Py.slice_from t 0 = t.
Proof. rewrite slice_from_skipn by lia. reflexivity. Qed.

(** ** The classifier *)


Example testXorYabsrel_ex1 : testXorYabsrel (lit "X") (lit "foo") = lit "-".
Proof. reflexivity. Qed.
Example testXorYabsrel_ex3 : testXorYabsrel (lit "Y") (lit " Y-2") = lit "RY".
Proof. reflexivity. Qed.
Example testXorYabsrel_ex4 : testXorYabsrel (lit "Y") (lit " 4") = lit "AY".
Proof. reflexivity. Qed.

(** ** The scanner *)

(** C7: [findpos] misses a comma that is at nesting level 0. In [(a),b]
    the comma at offset 3 follows a closed bracket, the specification's
    scanner stops there, and [findpos] returns the whole text: its inner
    loop counts the opening bracket a second time, so the level never
    comes back to 0. In ['a,b'] the comma is inside a quoted run, which
    [findpos] does not track outside brackets. *)
Theorem findpos_misses_top_level_comma :
  findpos 20 (lit "(a),b") = Ret (lit "(a),b")
  /\ Spec.findPosition (lit "(a),b") = lit "(a)"
  /\ findpos 20 (lit "'a,b'") = Ret (lit "'a")
  /\ Spec.findPosition (lit "'a,b'") = lit "'a,b'".
Proof. repeat split; reflexivity. Qed.

(** C8: the result [findcolon] reports for the second string depends on
    the first. [bracketlevel] is set to 0 once, before the loop over the
    two strings, so the level the first string leaves open is carried
    into the scan of the second: the colon of [(x)) :y] is found at
    offset 5 after an empty first string and not found after the first
    string [(]. The first colon at nesting level 0 is missed as well:
    [(a):b] gives [-1] where the specification's scanner gives 3. *)
Theorem findcolon_depends_on_first_string :
  findcolon 20 (lit "", lit "(x)) :y") = Ret (-1, 5)
  /\ findcolon 20 (lit "(", lit "(x)) :y") = Ret (-1, -1)
  /\ findcolon 20 (lit "(a):b", lit "") = Ret (-1, -1)
  /\ Spec.findColon (lit "(a):b", lit "") = (3, -1)
  /\ findcolon 20 (lit "(a:b)", lit "") = Ret (-1, -1).
Proof. repeat split; reflexivity. Qed.

(** ** Which search runs *)

(** C10: the search with the cursor inside runs exactly when
    [1 < posins < len(text)]. For any other cursor offset [OnF4] is the
    first-reference search followed by the cycle, and a result it returns
    carries the cursor offset 0. *)
Theorem OnF4_cursor_at_edge fuel text posins posCursor :
  (1 < posins < len text ->
   cursor_inside fuel text posins = search_inside fuel text posins posins)
  /\ (posins <= 1 \/ len text <= posins ->
      cursor_inside fuel text posins = Ret None
      /\ OnF4 fuel text posins posCursor
         = (foundposout <- search_first fuel text (-1) ;;
            match foundposout with
            | Some loc =>
                text' <- cycle text loc posCursor ;;
                Ret (Some (text', 0))
            | None => Ret None
            end)
      /\ forall text' cursor,
           OnF4 fuel text posins posCursor = Ret (Some (text', cursor)) ->
           cursor = 0).
Proof.
  split.
  - intros [H1 H2]. unfold cursor_inside.
    apply Z.ltb_lt in H1, H2. rewrite H1, H2. reflexivity.
  - intros H.
    assert (Hc : cursor_inside fuel text posins = Ret None).
    { unfold cursor_inside.
      destruct H as [H|H].
      - replace (1 <? posins) with false
          by (symmetry; apply Z.ltb_ge; lia).
        reflexivity.
      - replace (posins <? len text) with false
          by (symmetry; apply Z.ltb_ge; lia).
        rewrite andb_false_r. reflexivity. }
    split; [exact Hc|].
    unfold OnF4. rewrite Hc. cbn [bind].
    split; [reflexivity|].
    intros text' cursor.
    destruct (search_first fuel text (-1)) as [[loc|]| |]; cbn [bind];
      try discriminate.
    destruct (cycle text loc posCursor); cbn [bind]; try discriminate.
    intros [= _ <-]. reflexivity.
Qed.

(** ** Decimal digits: [str], [int] and [eval] *)

Lemma digit_char_props d :
  0 <= d < 10 ->
  Py.isdigit (Py.digit_char d) = true
  /\ Py.digit_val (Py.digit_char d) = d
  /\ (Py.digit_char d = "0"%char -> d = 0).
Proof.
  intros Hd.
  assert (H : d = 0 \/ d = 1 \/ d = 2 \/ d = 3 \/ d = 4 \/ d = 5 \/ d = 6
              \/ d = 7 \/ d = 8 \/ d = 9) by lia.
  repeat (destruct H as [-> | H]); try subst d;
    (split; [reflexivity | split; [reflexivity | ]]);
    first [reflexivity | discriminate].
Qed.

Lemma read_digits_app ds rest acc :
  forallb Py.isdigit ds = true ->
  Py.read_digits (ds ++ rest) acc = Py.read_digits rest (value ds acc).
Proof.
  revert acc. induction ds as [|c ds IH]; intros acc H; [reflexivity|].
  cbn [forallb] in H. apply andb_true_iff in H. destruct H as [Hc Hds].
  cbn [app Py.read_digits]. rewrite Hc. rewrite IH by exact Hds.
  reflexivity.
Qed.

Lemma value_snoc ds c acc :
  value (ds ++ [c]) acc = 10 * value ds acc + Py.digit_val c.
Proof. unfold value. rewrite fold_left_app. reflexivity. Qed.

Lemma str_digits_S fuel n acc :
  Py.str_digits (S fuel) n acc
  = if n <? 10 then Py.digit_char (n mod 10) :: acc
    else Py.str_digits fuel (n / 10) (Py.digit_char (n mod 10) :: acc).
Proof. reflexivity. Qed.

(** What [str_digits] puts in front of [acc]: the decimal digits of [n],
    without a leading zero unless [n] is 0. *)
Lemma str_digits_spec fuel n acc :
  0 <= n < 2 ^ Z.of_nat (S fuel) ->
  exists c ds,
    Py.str_digits (S fuel) n acc = (c :: ds) ++ acc
    /\ forallb Py.isdigit (c :: ds) = true
    /\ value (c :: ds) 0 = n
    /\ (c = "0"%char -> n = 0 /\ ds = []).
Proof.
  revert n acc. induction fuel as [|fuel IH]; intros n acc Hn.
  - assert (Hlt : n < 10) by (change (2 ^ Z.of_nat 1) with 2 in Hn; lia).
    rewrite str_digits_S. apply Z.ltb_lt in Hlt. rewrite Hlt.
    apply Z.ltb_lt in Hlt.
    rewrite Z.mod_small by lia.
    destruct (digit_char_props n ltac:(lia)) as (D1 & D2 & D3).
    exists (Py.digit_char n), []. cbn [app forallb]. rewrite D1.
    repeat split; auto; try (unfold value; cbn [fold_left]; lia).
  - rewrite str_digits_S.
    destruct (n <? 10) eqn:Hlt.
    + apply Z.ltb_lt in Hlt. rewrite Z.mod_small by lia.
      destruct (digit_char_props n ltac:(lia)) as (D1 & D2 & D3).
      exists (Py.digit_char n), []. cbn [app forallb]. rewrite D1.
      repeat split; auto; try (unfold value; cbn [fold_left]; lia).
    + apply Z.ltb_ge in Hlt.
      assert (Hq : 0 <= n / 10 < 2 ^ Z.of_nat (S fuel)).
      { split; [apply Z.div_pos; lia|].
        apply Z.div_lt_upper_bound; [lia|].
        replace (Z.of_nat (S (S fuel))) with (Z.succ (Z.of_nat (S fuel)))
          in Hn by lia.
        rewrite Z.pow_succ_r in Hn by lia. lia. }
      destruct (IH (n / 10) (Py.digit_char (n mod 10) :: acc) Hq)
        as (c & ds & E & F & V & L).
      pose proof (Z.mod_pos_bound n 10 ltac:(lia)) as Hm.
      destruct (digit_char_props (n mod 10) Hm) as (D1 & D2 & D3).
      exists c, (ds ++ [Py.digit_char (n mod 10)]).
      split; [rewrite E; cbn [app]; rewrite <- app_assoc; reflexivity|].
      split.
      { change (c :: ds ++ [Py.digit_char (n mod 10)])
          with ((c :: ds) ++ [Py.digit_char (n mod 10)]).
        rewrite forallb_app, F. cbn [forallb]. rewrite D1. reflexivity. }
      split.
      { change (c :: ds ++ [Py.digit_char (n mod 10)])
          with ((c :: ds) ++ [Py.digit_char (n mod 10)]).
        rewrite value_snoc, V, D2.
        pose proof (Z.div_mod n 10 ltac:(lia)). lia. }
      intros Hc. destruct (L Hc) as [L1 L2].
      assert (n < 10) by (apply Z.div_small_iff in L1; lia). lia.
Qed.

Lemma str_nonneg_spec n :
  0 <= n ->
  exists c ds,
    Py.str_nonneg n = c :: ds
    /\ forallb Py.isdigit (c :: ds) = true
    /\ value (c :: ds) 0 = n
    /\ (c = "0"%char -> n = 0 /\ ds = []).
Proof.
  intros Hn. unfold Py.str_nonneg.
  assert (Hb : 0 <= n < 2 ^ Z.of_nat (S (Z.to_nat (Z.log2 n)))).
  { split; [exact Hn|].
    pose proof (Z.log2_nonneg n).
    replace (Z.of_nat (S (Z.to_nat (Z.log2 n)))) with (Z.succ (Z.log2 n))
      by lia.
    destruct (Z.eq_dec n 0) as [->|Hne]; [reflexivity|].
    apply Z.log2_spec. lia. }
  destruct (str_digits_spec _ n [] Hb) as (c & ds & E & F & V & L).
  exists c, ds. rewrite E, app_nil_r. auto.
Qed.

(** A digit is none of the characters the searches and the scanner look
    for. *)
Lemma isdigit_other c :
  Py.isdigit c = true ->
  Py.isspace c = false
  /\ Ascii.eqb c "+" = false /\ Ascii.eqb c "-" = false
  /\ Ascii.eqb c " " = false /\ Ascii.eqb c tab = false
  /\ Py.mem c (lit ",:([{]XYS") = false.
Proof.
  destruct c as [[] [] [] [] [] [] [] []]; intros H;
    try discriminate H; repeat split; reflexivity.
Qed.

Lemma unsigned_literal_digits c ds :
  forallb Py.isdigit (c :: ds) = true ->
  Py.unsigned_literal (c :: ds) = Some (value (c :: ds) 0).
Proof.
  intros F. unfold Py.unsigned_literal.
  pose proof F as F'. cbn [forallb] in F'. apply andb_true_iff in F'.
  destruct F' as [Hc _]. rewrite Hc.
  rewrite <- (app_nil_r (c :: ds)) at 1.
  rewrite read_digits_app by exact F. reflexivity.
Qed.

(** [int(str(n))] is [n]. *)
Lemma int_str n : Py.int (Py.str n) = Some n.
Proof.
  unfold Py.str. destruct (n <? 0) eqn:Hn.
  - apply Z.ltb_lt in Hn.
    destruct (str_nonneg_spec (- n) ltac:(lia)) as (c & ds & E & F & V & _).
    rewrite E. unfold Py.int. cbn [Py.lstrip].
    change (Py.isspace "-") with false. cbv iota.
    change (Ascii.eqb "-" "+") with false.
    change (Ascii.eqb "-" "-") with true. cbv iota.
    rewrite unsigned_literal_digits by exact F. rewrite V.
    cbn [option_map]. f_equal. lia.
  - apply Z.ltb_ge in Hn.
    destruct (str_nonneg_spec n Hn) as (c & ds & E & F & V & _).
    rewrite E. unfold Py.int. cbn [Py.lstrip].
    pose proof F as F'. cbn [forallb] in F'. apply andb_true_iff in F'.
    destruct F' as [Hc _].
    destruct (isdigit_other c Hc) as (S1 & S2 & S3 & _).
    rewrite S1, S2, S3.
    rewrite unsigned_literal_digits by exact F. rewrite V. reflexivity.
Qed.

(** The tokens of a decimal literal without a leading zero. *)
Lemma lex_digits fuel c ds :
  forallb Py.isdigit (c :: ds) = true ->
  (c = "0"%char -> ds = []) ->
  Eval.lex (S (S fuel)) (c :: ds) = Some [Eval.TNum (value (c :: ds) 0)].
Proof.
  intros F L.
  pose proof F as F'. cbn [forallb] in F'. apply andb_true_iff in F'.
  destruct F' as [Hc _].
  destruct (isdigit_other c Hc) as (_ & _ & _ & S4 & S5 & _).
  cbn [Eval.lex]. rewrite S4, S5, Hc. cbn [orb].
  change (Py.read_digits (c :: ds) 0)
    with (Py.read_digits (c :: ds) 0).
  rewrite <- (app_nil_r (c :: ds)) at 1.
  rewrite read_digits_app by exact F. cbn [Py.read_digits].
  destruct (Ascii.eqb c "0") eqn:E0.
  - apply Ascii.eqb_eq in E0. rewrite (L E0). reflexivity.
  - reflexivity.
Qed.

Lemma lex_blank fuel t :
  Eval.lex (S fuel) (" "%char :: t) = Eval.lex fuel t.
Proof. reflexivity. Qed.

Lemma lex_plus fuel t :
  Eval.lex (S fuel) ("+"%char :: t)
  = option_map (cons Eval.TPlus) (Eval.lex fuel t).
Proof. reflexivity. Qed.

Lemma lex_minus fuel t :
  Eval.lex (S fuel) ("-"%char :: t)
  = option_map (cons Eval.TMinus) (Eval.lex fuel t).
Proof. reflexivity. Qed.

Lemma lex_zero_blank fuel t :
  Eval.lex (S fuel) ("0"%char :: " "%char :: t)
  = option_map (cons (Eval.TNum 0)) (Eval.lex fuel (" "%char :: t)).
Proof.
  cbn [Eval.lex]. change (Ascii.eqb "0" " " || Ascii.eqb "0" tab) with false.
  change (Py.isdigit "0") with true. cbv iota.
  change (Py.read_digits ("0"%char :: " "%char :: t) 0)
    with (0, " "%char :: t).
  cbv iota.
  replace (Z.of_nat (length (" "%char :: t)) + 1
           =? len ("0"%char :: " "%char :: t)) with true.
  - reflexivity.
  - symmetry. apply Z.eqb_eq. unfold len. cbn [length]. lia.
Qed.

(** [eval] of the text [makeXorYabs] builds from what [makeXorYrel]
    wrote. *)
Lemma eval_zero_plus d :
  0 <= d ->
  Eval.eval (lit "0" ++ lit " + " ++ Py.str_nonneg d) = Some d.
Proof.
  intros Hd.
  destruct (str_nonneg_spec d Hd) as (c & ds & E & F & V & L).
  rewrite E. unfold Eval.eval.
  cbn [lit String.list_ascii_of_string app length].
  rewrite lex_zero_blank, lex_blank, lex_plus, lex_blank.
  rewrite lex_digits; [|exact F|intros H; apply (L H)].
  rewrite V. reflexivity.
Qed.

Lemma eval_zero_minus d :
  0 <= d ->
  Eval.eval (lit "0" ++ lit " - " ++ Py.str_nonneg d) = Some (- d).
Proof.
  intros Hd.
  destruct (str_nonneg_spec d Hd) as (c & ds & E & F & V & L).
  rewrite E. unfold Eval.eval.
  cbn [lit String.list_ascii_of_string app length].
  rewrite lex_zero_blank, lex_blank, lex_minus, lex_blank.
  rewrite lex_digits; [|exact F|intros H; apply (L H)].
  rewrite V. reflexivity.
Qed.

(** ** The rewriter *)

Lemma str_of_nonneg n : 0 <= n -> Py.str n = Py.str_nonneg n.
Proof.
  intros Hn. unfold Py.str.
  replace (n <? 0) with false by (symmetry; apply Z.ltb_ge; lia).
  reflexivity.
Qed.

Lemma makeXorYrel_int xory text posCursor n :
  Py.int text = Some n ->
  makeXorYrel xory text posCursor
  = Ret (relative xory (n - coordinate xory posCursor)).
Proof.
  intros Hn. unfold makeXorYrel, relative, coordinate. rewrite Hn.
  destruct (0 <? _); reflexivity.
Qed.

Lemma find_head x r : Py.find (x :: r) [x] = 0.
Proof.
  unfold Py.find. cbn [Py.find_from Py.prefixb].
  rewrite Ascii.eqb_refl. reflexivity.
Qed.

Lemma eval_relative x d :
  Eval.eval
    (Py.slice_to (relative [x] d) (Py.find (relative [x] d) [x])
       ++ lit "0"
       ++ Py.slice_from (relative [x] d) (Py.find (relative [x] d) [x] + 1))
  = Some d.
Proof.
  unfold relative. destruct (0 <? d) eqn:Hd.
  - apply Z.ltb_lt in Hd. cbn [app]. rewrite find_head, slice_to_0.
    rewrite (slice_from_cons x _ 0) by lia. rewrite slice_from_0.
    rewrite str_of_nonneg by lia. cbn [app].
    apply (eval_zero_plus d). lia.
  - apply Z.ltb_ge in Hd. cbn [app]. rewrite find_head, slice_to_0.
    rewrite (slice_from_cons x _ 0) by lia. rewrite slice_from_0.
    rewrite str_of_nonneg by lia. cbn [app].
    rewrite (eval_zero_minus (- d)) by lia. f_equal. lia.
Qed.

Lemma makeXorYabs_relative x d posCursor :
  makeXorYabs [x] (relative [x] d) posCursor
  = Ret (Py.str (d + coordinate [x] posCursor)).
Proof.
  unfold makeXorYabs, py_eval.
  rewrite <- app_assoc, eval_relative. reflexivity.
Qed.

Lemma axis_char v : axis v -> exists x, v = [x].
Proof. intros [-> | ->]; eexists; reflexivity. Qed.

(** C9: for every integer [n], axis name [v] and anchor, the relative
    form [makeXorYrel] writes for [str(n)] is turned back into [str(n)]
    by [makeXorYabs] with the same anchor. *)
Theorem makeXorYabs_makeXorYrel (n : Z) (v : pystr) (posCursor : Z * Z) :
  axis v ->
  (text <- makeXorYrel v (Py.str n) posCursor ;;
   makeXorYabs v text posCursor)
  = Ret (Py.str n).
Proof.
  intros Hv. destruct (axis_char v Hv) as [x ->].
  rewrite (makeXorYrel_int [x] (Py.str n) posCursor n (int_str n)).
  cbn [bind]. rewrite makeXorYabs_relative. f_equal. f_equal. lia.
Qed.

(** ** The loops of the searches *)

Lemma skip_level_range fuel text bracketlevel pos bracketlevel' pos' :
  skip_level fuel text bracketlevel pos = Ret (bracketlevel', pos') ->
  pos <= pos'.
Proof.
  revert bracketlevel pos.
  induction fuel as [|fuel IH]; intros bracketlevel pos H; [discriminate|].
  cbn [skip_level] in H.
  destruct ((0 <? bracketlevel) && (pos <? len text)).
  - destruct (Py.getitem text pos); cbn [bind] in H; try discriminate.
    apply IH in H. lia.
  - injection H as _ <-. lia.
Qed.

(** [findpos] returns its argument, or what stands before one of its
    commas. *)
Lemma findpos_loop_inv fuel text bracketlevel pos r :
  findpos_loop fuel text bracketlevel pos = Ret r -> 0 <= pos ->
  r = text \/ exists rest, text = r ++ ","%char :: rest.
Proof.
  revert bracketlevel pos.
  induction fuel as [|fuel IH]; intros bracketlevel pos H Hpos;
    [discriminate|].
  cbn [findpos_loop] in H.
  destruct (pos <? len text); [|left; congruence].
  destruct (Py.getitem text pos) as [c| |] eqn:Hc; cbn [bind] in H;
    try discriminate.
  destruct (Ascii.eqb c ",") eqn:Hcomma.
  - apply Ascii.eqb_eq in Hcomma. subst c.
    destruct (getitem_split text pos _ Hpos Hc) as (u & w & -> & Hlen).
    right. exists w. injection H as <-.
    rewrite <- Hlen, slice_to_app. reflexivity.
  - destruct (Py.mem c openers).
    + destruct (skip_level (S fuel) text (bracketlevel + 1) pos)
        as [[bl' pos']| |] eqn:Hs; cbn [bind] in H; try discriminate.
      apply skip_level_range in Hs.
      apply IH in H; [exact H | lia].
    + apply IH in H; [exact H | lia].
Qed.

Lemma findpos_inv fuel text r :
  findpos fuel text = Ret r ->
  r = text \/ exists rest, text = r ++ ","%char :: rest.
Proof. intros H. apply (findpos_loop_inv _ _ _ _ _ H). lia. Qed.

Lemma plain_other c :
  plain c = true ->
  Ascii.eqb c "," = false /\ Ascii.eqb c ":" = false
  /\ Ascii.eqb c "]" = false /\ Py.mem c openers = false.
Proof.
  unfold plain. intros H. apply negb_true_iff in H.
  cbn [lit String.list_ascii_of_string Py.mem existsb] in H.
  repeat (apply orb_false_iff in H; destruct H as [? H]).
  unfold openers. cbn [lit String.list_ascii_of_string Py.mem existsb].
  repeat split; auto.
  repeat (apply orb_false_iff; split; auto).
Qed.

(** Over plain characters [findpos] runs to the first comma, or to the
    end. *)
Lemma findpos_loop_plain fuel a b rest :
  forallb plain b = true ->
  rest = [] \/ (exists r, rest = ","%char :: r) ->
  (length b < fuel)%nat ->
  findpos_loop fuel (a ++ b ++ rest) 0 (len a) = Ret (a ++ b).
Proof.
  revert a fuel. induction b as [|c b IH]; intros a fuel Hb Hrest Hfuel.
  - destruct fuel as [|fuel]; [cbn [length] in Hfuel; lia|].
    cbn [app findpos_loop].
    destruct Hrest as [-> | [r ->]].
    + rewrite app_nil_r, Z.ltb_irrefl. reflexivity.
    + replace (len a <? len (a ++ ","%char :: r)) with true
        by (symmetry; apply Z.ltb_lt; rewrite len_app, len_cons;
            pose proof (len_nonneg r); lia).
      rewrite getitem_app_here. cbn [bind].
      change (Ascii.eqb "," ",") with true. cbv iota.
      rewrite slice_to_app, app_nil_r. reflexivity.
  - destruct fuel as [|fuel]; [cbn [length] in Hfuel; lia|].
    cbn [forallb] in Hb. apply andb_true_iff in Hb. destruct Hb as [Hc Hb].
    destruct (plain_other c Hc) as (N1 & _ & _ & N4).
    cbn [findpos_loop].
    replace (len a <? len (a ++ (c :: b) ++ rest)) with true
      by (symmetry; apply Z.ltb_lt; rewrite len_app;
          change ((c :: b) ++ rest) with (c :: b ++ rest);
          rewrite len_cons; pose proof (len_nonneg (b ++ rest)); lia).
    change ((c :: b) ++ rest) with (c :: b ++ rest).
    rewrite getitem_app_here. cbn [bind]. rewrite N1, N4.
    specialize (IH (a ++ [c]) fuel Hb Hrest).
    rewrite <- !app_assoc in IH. cbn [app] in IH.
    rewrite len_app, len_cons, len_nil in IH.
    replace (len a + (1 + 0)) with (len a + 1) in IH by lia.
    apply IH. cbn [length] in Hfuel. lia.
Qed.

Lemma findpos_plain fuel b rest :
  forallb plain b = true ->
  rest = [] \/ (exists r, rest = ","%char :: r) ->
  (length b < fuel)%nat ->
  findpos fuel (b ++ rest) = Ret b.
Proof.
  intros Hb Hrest Hfuel. unfold findpos.
  apply (findpos_loop_plain fuel [] b rest Hb Hrest Hfuel).
Qed.

Lemma findcolon_loop_plain fuel a b bracketlevel :
  forallb plain b = true ->
  (length b < fuel)%nat ->
  findcolon_loop fuel (a ++ b) bracketlevel (len a) = Ret (-1, bracketlevel).
Proof.
  revert a fuel. induction b as [|c b IH]; intros a fuel Hb Hfuel.
  - destruct fuel as [|fuel]; [cbn [length] in Hfuel; lia|].
    cbn [findcolon_loop]. rewrite app_nil_r, Z.ltb_irrefl. reflexivity.
  - destruct fuel as [|fuel]; [cbn [length] in Hfuel; lia|].
    cbn [forallb] in Hb. apply andb_true_iff in Hb. destruct Hb as [Hc Hb].
    destruct (plain_other c Hc) as (_ & N2 & _ & N4).
    cbn [findcolon_loop].
    replace (len a <? len (a ++ c :: b)) with true
      by (symmetry; apply Z.ltb_lt; rewrite len_app, len_cons;
          pose proof (len_nonneg b); lia).
    rewrite getitem_app_here. cbn [bind]. rewrite N2, N4.
    specialize (IH (a ++ [c]) fuel Hb).
    rewrite <- !app_assoc in IH. cbn [app] in IH.
    rewrite len_app, len_cons, len_nil in IH.
    replace (len a + (1 + 0)) with (len a + 1) in IH by lia.
    apply IH. cbn [length] in Hfuel. lia.
Qed.

Lemma findcolon_plain fuel c1 c2 :
  forallb plain c1 = true -> forallb plain c2 = true ->
  (length c1 < fuel)%nat -> (length c2 < fuel)%nat ->
  findcolon fuel (c1, c2) = Ret (-1, -1).
Proof.
  intros H1 H2 F1 F2. unfold findcolon. cbn [fst snd].
  pose proof (findcolon_loop_plain fuel [] c1 0 H1 F1) as E1.
  pose proof (findcolon_loop_plain fuel [] c2 0 H2 F2) as E2.
  cbn [app] in E1, E2. change (len []) with 0 in E1, E2.
  rewrite E1. cbn [bind]. rewrite E2. reflexivity.
Qed.

Lemma extends_ret {A : Type} (c c' : result A) v :
  extends c c' -> c = Ret v -> c' = Ret v.
Proof. intros H E. rewrite <- E. apply H. rewrite E. exact I. Qed.



(** *** Blanks before the bracket *)

Lemma skip_blanks_back_app fuel P y temp :
  0 <= temp < len P ->
  skip_blanks_back fuel (P ++ y) temp = skip_blanks_back fuel P temp.
Proof.
  revert temp. induction fuel as [|fuel IH]; intros temp Ht;
    [reflexivity|].
  cbn [skip_blanks_back]. rewrite getitem_app_left by lia.
  destruct (Py.getitem P temp) as [c| |]; cbn [bind]; try reflexivity.
  destruct (Py.mem c blanks && (0 <? temp)) eqn:E; [|reflexivity].
  apply andb_true_iff in E. destruct E as [_ E]. apply Z.ltb_lt in E.
  apply IH. lia.
Qed.

Lemma at_start_or_after_separator_app P y temp :
  0 <= temp <= len P ->
  at_start_or_after_separator (P ++ y) temp
  = at_start_or_after_separator P temp.
Proof.
  intros Ht. unfold at_start_or_after_separator.
  destruct (temp =? 0) eqn:E; [reflexivity|].
  apply Z.eqb_neq in E. rewrite getitem_app_left by lia. reflexivity.
Qed.

Lemma is_reference_start_app P y temp :
  0 <= temp < len P ->
  is_reference_start (P ++ y) temp = is_reference_start P temp.
Proof.
  intros Ht. unfold is_reference_start.
  rewrite getitem_app_left by lia.
  destruct (Py.getitem P temp) as [c| |]; cbn [bind]; try reflexivity.
  destruct (Ascii.eqb c "S"); [|reflexivity].
  apply at_start_or_after_separator_app. lia.
Qed.

(** *** The scan for the closing bracket *)

Lemma scan_to_close_run fuel P m B :
  forallb (fun c => negb (Ascii.eqb c "]")) m = true ->
  (length m < fuel)%nat ->
  scan_to_close fuel (P ++ m ++ "]"%char :: B) (len P)
  = Ret (len P + len m).
Proof.
  revert P fuel. induction m as [|c m IH]; intros P fuel Hm Hfuel.
  - destruct fuel as [|fuel]; [cbn [length] in Hfuel; lia|].
    cbn [app scan_to_close]. rewrite getitem_app_here. cbn [bind].
    change (negb (Ascii.eqb "]" "]")) with false. cbn [andb].
    rewrite len_nil. f_equal. lia.
  - destruct fuel as [|fuel]; [cbn [length] in Hfuel; lia|].
    cbn [forallb] in Hm. apply andb_true_iff in Hm. destruct Hm as [Hc Hm].
    cbn [scan_to_close]. change ((c :: m) ++ "]"%char :: B)
      with (c :: m ++ "]"%char :: B).
    rewrite getitem_app_here. cbn [bind]. rewrite Hc.
    replace (len P <? len (P ++ c :: m ++ "]"%char :: B)) with true
      by (symmetry; apply Z.ltb_lt; rewrite len_app, len_cons;
          pose proof (len_nonneg (m ++ "]"%char :: B)); lia).
    cbn [andb].
    specialize (IH (P ++ [c]) fuel Hm).
    rewrite <- !app_assoc in IH. cbn [app] in IH.
    rewrite len_app, len_cons, len_nil in IH.
    replace (len P + (1 + 0)) with (len P + 1) in IH by lia.
    rewrite IH by (cbn [length] in Hfuel; lia).
    rewrite len_cons. f_equal. lia.
Qed.

(** *** Blanks and brackets after the [S] *)


(** *** [find] of one character *)

Lemma prefixb_char x c t : Py.prefixb [x] (c :: t) = Ascii.eqb x c.
Proof. cbn [Py.prefixb]. apply andb_true_r. Qed.

Lemma find_char_In x t : 0 <= Py.find t [x] <-> In x t.
Proof.
  induction t as [|c t IH].
  - unfold Py.find. cbn. split; [lia | intros []].
  - rewrite find_cons, prefixb_char.
    destruct (Ascii.eqb x c) eqn:E.
    + apply Ascii.eqb_eq in E. subst c. split; [left; reflexivity | lia].
    + apply Ascii.eqb_neq in E.
      destruct (Py.find t [x] <? 0) eqn:F.
      * apply Z.ltb_lt in F. split; [lia|].
        intros [H|H]; [congruence | apply IH in H; lia].
      * apply Z.ltb_ge in F. split; [intros _; right; apply IH; lia | lia].
Qed.


Lemma find_slice_from x t k :
  0 <= k -> 0 <= Py.find (Py.slice_from t k) [x] -> 0 <= Py.find t [x].
Proof.
  intros Hk H. apply find_char_In. apply find_char_In in H.
  rewrite slice_from_skipn in H by lia.
  rewrite <- (firstn_skipn (Z.to_nat k) t). apply in_or_app. right. exact H.
Qed.

(** The first occurrence of a character splits the text. *)
Lemma first_occurrence (x : ascii) (l : pystr) :
  In x l ->
  exists l1 l2, l = l1 ++ x :: l2
                /\ forallb (fun c => negb (Ascii.eqb c x)) l1 = true.
Proof.
  induction l as [|c l IH]; intros H; [destruct H|].
  destruct (Ascii.eqb c x) eqn:E.
  - apply Ascii.eqb_eq in E. subst c. exists [], l. split; reflexivity.
  - destruct H as [H|H]; [subst c; rewrite Ascii.eqb_refl in E; discriminate|].
    destruct (IH H) as (l1 & l2 & -> & Hf).
    exists (c :: l1), l2. split; [reflexivity|].
    cbn [forallb]. rewrite E, Hf. reflexivity.
Qed.

(** *** What the classifier can return *)

Lemma testXorYabsrel_cases v s :
  (testXorYabsrel v s = "A"%char :: v /\ exists n, Py.int s = Some n)
  \/ testXorYabsrel v s = "R"%char :: v
  \/ testXorYabsrel v s = "C"%char :: v
  \/ testXorYabsrel v s = lit "-".
Proof.
  unfold testXorYabsrel.
  destruct (Py.int s) as [n|]; [left; split; [reflexivity | eauto]|].
  destruct (0 <=? Py.find s v); [|auto].
  destruct (py_eval _); auto.
Qed.

(** *** What a successful search tells *)

Lemma search_inside_inv fuel text posins q loc :
  search_inside fuel text posins q = Ret (Some loc) ->
  exists p temp0 temp,
    1 <= p < q
    /\ Py.getitem text p = Ret "["%char
    /\ skip_blanks_back fuel text (p - 1) = Ret temp0
    /\ is_reference_start text temp0 = Ret true
    /\ scan_to_close fuel text posins = Ret temp
    /\ Py.getitem text temp = Ret "]"%char
    /\ split_inside fuel text posins (p + 1) temp = Ret loc.
Proof.
  revert q. induction fuel as [|fuel IH]; intros q H; [discriminate|].
  assert (Lift : forall q', search_inside fuel text posins q' = Ret (Some loc)
                 -> q' <= q ->
    exists p temp0 temp,
      1 <= p < q
      /\ Py.getitem text p = Ret "["%char
      /\ skip_blanks_back (S fuel) text (p - 1) = Ret temp0
      /\ is_reference_start text temp0 = Ret true
      /\ scan_to_close (S fuel) text posins = Ret temp
      /\ Py.getitem text temp = Ret "]"%char
      /\ split_inside (S fuel) text posins (p + 1) temp = Ret loc).
  { intros q' H' Hq.
    destruct (IH q' H') as (p & temp0 & temp & B & G & K & R & C & G2 & Sp).
    exists p, temp0, temp. repeat split; auto; try lia.
    - apply (extends_ret _ _ _
               (skip_blanks_back_mono fuel (S fuel) text (p - 1)
                  ltac:(lia)) K).
    - apply (extends_ret _ _ _
               (scan_to_close_mono fuel (S fuel) text posins
                  ltac:(lia)) C).
    - apply (extends_ret _ _ _
               (split_inside_mono fuel (S fuel) text posins (p + 1) temp
                  ltac:(lia)) Sp). }
  cbn [search_inside] in H.
  destruct (1 <? q) eqn:Hq; [|discriminate].
  apply Z.ltb_lt in Hq.
  destruct (Py.getitem text (q - 1)) as [c| |] eqn:Hc; cbn [bind] in H;
    try discriminate.
  destruct (Ascii.eqb c "[") eqn:Eb.
  - apply Ascii.eqb_eq in Eb. subst c.
    destruct (skip_blanks_back (S fuel) text (q - 1 - 1)) as [temp0| |] eqn:K;
      cbn [bind] in H; try discriminate.
    destruct (is_reference_start text temp0) as [ok| |] eqn:R;
      cbn [bind] in H; try discriminate.
    destruct ok.
    + destruct (scan_to_close (S fuel) text posins) as [temp| |] eqn:C;
        cbn [bind] in H; try discriminate.
      destruct (Py.getitem text temp) as [c| |] eqn:G2; cbn [bind] in H;
        try discriminate.
      destruct (Ascii.eqb c "]") eqn:Ec.
      * apply Ascii.eqb_eq in Ec. subst c.
        destruct (split_inside (S fuel) text posins (q - 1 + 1) temp)
          as [loc'| |] eqn:Sp; cbn [bind] in H; try discriminate.
        injection H as ->.
        exists (q - 1), temp0, temp. repeat split; auto; lia.
      * apply (Lift _ H). lia.
    + apply (Lift _ H). lia.
  - apply (Lift _ H). lia.
Qed.

Lemma search_first_inv fuel text posS0 loc :
  search_first fuel text posS0 = Ret (Some loc) -> -1 <= posS0 ->
  let posS := Py.find text (lit "S") in
  0 <= posS
  /\ at_start_or_after_separator text posS = Ret true
  /\ (Py.count (Py.slice_to text posS) dquote mod 2 =? 1)
     || (Py.count (Py.slice_to text posS) "'" mod 2 =? 1) = false
  /\ (exists c, Py.getitem text (posS + 1) = Ret c
                /\ Py.mem c blanks_bracket = true)
  /\ exists pX s1 s2,
       skip_open fuel text (posS + 1) = Ret pX
       /\ findpos fuel (Py.slice_from text pX) = Ret s1
       /\ findpos fuel (Py.slice_from text (pX + len s1 + 1)) = Ret s2
       /\ loc = Located pX (pX + len s1 + 1) s1 s2
                  (testXorYabsrel (lit "X") s1)
                  (testXorYabsrel (lit "Y") s2).
Proof.
  intros H Hp posS.
  revert posS0 H Hp. induction fuel as [|fuel IH]; intros posS0 H Hp;
    [discriminate|].
  assert (Lift : search_first fuel text posS = Ret (Some loc) ->
    0 <= posS
    /\ at_start_or_after_separator text posS = Ret true
    /\ (Py.count (Py.slice_to text posS) dquote mod 2 =? 1)
       || (Py.count (Py.slice_to text posS) "'" mod 2 =? 1) = false
    /\ (exists c, Py.getitem text (posS + 1) = Ret c
                  /\ Py.mem c blanks_bracket = true)
    /\ exists pX s1 s2,
         skip_open (S fuel) text (posS + 1) = Ret pX
         /\ findpos (S fuel) (Py.slice_from text pX) = Ret s1
         /\ findpos (S fuel) (Py.slice_from text (pX + len s1 + 1)) = Ret s2
         /\ loc = Located pX (pX + len s1 + 1) s1 s2
                    (testXorYabsrel (lit "X") s1)
                    (testXorYabsrel (lit "Y") s2)).
  { intros H'.
    assert (Hge : -1 <= posS) by (apply find_from_lower; lia).
    destruct (IH posS H' Hge) as (A & B & C & D & pX & s1 & s2 & E & F & G & L).
    repeat split; auto. exists pX, s1, s2. repeat split; auto.
    - apply (extends_ret _ _ _
               (skip_open_mono fuel (S fuel) text (posS + 1) ltac:(lia)) E).
    - apply (extends_ret _ _ _
               (findpos_mono fuel (S fuel) _ ltac:(lia)) F).
    - apply (extends_ret _ _ _
               (findpos_mono fuel (S fuel) _ ltac:(lia)) G). }
  cbn [search_first] in H. fold posS in H.
  destruct (0 <=? Py.find (Py.slice_from text (posS0 + 1)) (lit "S")) eqn:Hf;
    [|discriminate].
  apply Z.leb_le in Hf.
  assert (HS : 0 <= posS)
    by (apply (find_slice_from "S" text (posS0 + 1)); [lia | exact Hf]).
  destruct (at_start_or_after_separator text posS) as [ok| |] eqn:B;
    cbn [bind] in H; try discriminate.
  destruct ok; [|apply (Lift H)].
  destruct ((Py.count (Py.slice_to text posS) dquote mod 2 =? 1)
            || (Py.count (Py.slice_to text posS) "'" mod 2 =? 1)) eqn:C;
    [apply (Lift H)|].
  destruct (Py.getitem text (posS + 1)) as [c| |] eqn:D; cbn [bind] in H;
    try discriminate.
  destruct (Py.mem c blanks_bracket) eqn:M; [|apply (Lift H)].
  destruct (skip_open (S fuel) text (posS + 1)) as [pX| |] eqn:E;
    cbn [bind] in H; try discriminate.
  destruct (findpos (S fuel) (Py.slice_from text pX)) as [s1| |] eqn:F;
    cbn [bind] in H; try discriminate.
  destruct (findpos (S fuel) (Py.slice_from text (pX + len s1 + 1)))
    as [s2| |] eqn:G; cbn [bind] in H; try discriminate.
  injection H as <-.
  repeat split; auto. { exists c; auto. }
  exists pX, s1, s2. auto.
Qed.

(** ** Components the program writes *)






Lemma int_relative v d : axis v -> Py.int (relative v d) = None.
Proof.
  intros Hv. unfold relative.
  destruct (0 <? d); destruct Hv as [-> | ->]; reflexivity.
Qed.

Lemma testXorYabsrel_relative v d :
  axis v -> testXorYabsrel v (relative v d) = "R"%char :: v.
Proof.
  intros Hv. unfold testXorYabsrel. rewrite (int_relative v d Hv).
  destruct (axis_char v Hv) as [x ->].
  assert (Hf : Py.find (relative [x] d) [x] = 0)
    by (unfold relative; destruct (0 <? d); apply find_head).
  unfold py_eval. rewrite <- app_assoc, eval_relative.
  rewrite Hf. reflexivity.
Qed.

(** ** Splicing *)

Lemma len_spliced P a b R :
  len (spliced P a b R) = len P + len a + 1 + len b + len R.
Proof. unfold spliced. rewrite !len_app, len_cons, len_app. lia. Qed.




(** ** The searches on a spliced text *)

Lemma plain_not_close m :
  forallb plain m = true ->
  forallb (fun c => negb (Ascii.eqb c "]")) m = true.
Proof.
  induction m as [|c m IH]; intros H; [reflexivity|].
  cbn [forallb] in *. apply andb_true_iff in H. destruct H as [Hc Hm].
  destruct (plain_other c Hc) as (_ & _ & N3 & _).
  rewrite N3, (IH Hm). reflexivity.
Qed.

(** The part of [R] before its first closing bracket. *)
Lemma anchored_inside_rest fuel0 P R :
  anchored_inside fuel0 P R ->
  exists R1 B,
    R = R1 ++ "]"%char :: B
    /\ forallb (fun c => negb (Ascii.eqb c "]")) R1 = true
    /\ (R1 = [] \/ exists r, R1 = ","%char :: r).
Proof.
  intros (_ & _ & _ & Hin & c & r & HR & Hc).
  destruct (first_occurrence "]"%char R Hin) as (R1 & B & E & F).
  exists R1, B. repeat split; auto.
  destruct R1 as [|c1 R1]; [left; reflexivity|right].
  rewrite E in HR. cbn [app] in HR. injection HR as H1 _. subst c1.
  destruct Hc as [-> | ->]; [eauto|].
  cbn [forallb] in F. discriminate F.
Qed.




(** ** The cycle on a spliced text *)

Ltac reassoc :=
  repeat first [rewrite <- app_assoc | progress cbn [app]]; reflexivity.








(** * Further properties *)

Example color_ex1 : color_pack2rgb 16711935 = (255, 0, 255). Proof. reflexivity. Qed.
Example color_ex2 : color_rgb2pack 1 2 3 = 197121. Proof. reflexivity. Qed.
Example unquote_ex1 : unquote_string (lit "'abc'") = Ret (lit "abc"). Proof. reflexivity. Qed.
Example unquote_ex2 : unquote_string (lit "u'abc'") = Ret (lit "abc"). Proof. reflexivity. Qed.
Example unquote_ex3 : unquote_string (lit "") = Raise IndexError. Proof. reflexivity. Qed.
Example parse_dict_ex1 :
  parse_dict_strings (lit "'a': 1, 'b': (2, 3), 'c': 'x, y'")
  = [lit "'a'"; lit "1"; lit "'b'"; lit "(2, 3)"; lit "'c'"; lit "'x, y'"].
Proof. reflexivity. Qed.
Example parse_dict_ex2 : parse_dict_strings (lit "") = [lit ""]. Proof. reflexivity. Qed.
Example parse_dict_ex3 : parse_dict_strings (lit "a:") = [lit "a"; lit ""]. Proof. reflexivity. Qed.
Example common_start_ex1 :
  common_start [lit "abcd"; lit "abxy"; lit "abc"] = lit "ab".
Proof. reflexivity. Qed.
Example common_start_ex2 : common_start [lit "abc"; lit "xbc"] = lit "". Proof. reflexivity. Qed.
Example common_start_ex3 : common_start [lit "abc"] = lit "abc". Proof. reflexivity. Qed.
Example common_start_ex4 : common_start [lit ""; lit "a"] = lit "". Proof. reflexivity. Qed.

(** ** Packed colours *)

Lemma color_pack2rgb_div (packed : Z) :
  color_pack2rgb packed
  = (packed mod 256, (packed / 256) mod 256, (packed / 65536) mod 256).
Proof.
  unfold color_pack2rgb.
  rewrite !Z.shiftr_land.
  change (Z.shiftr (Z.shiftl 255 8) 8) with (Z.ones 8).
  change (Z.shiftr (Z.shiftl 255 16) 16) with (Z.ones 8).
  change 255 with (Z.ones 8).
  rewrite !Z.land_ones by lia.
  rewrite !Z.shiftr_div_pow2 by lia.
  reflexivity.
Qed.

(** The components [color_pack2rgb] returns are bytes, whatever integer
    it is given, a negative one included. *)
Theorem color_pack2rgb_range (packed : Z) :
  let '(r, g, b) := color_pack2rgb packed in
  0 <= r <= 255 /\ 0 <= g <= 255 /\ 0 <= b <= 255.
Proof.
  rewrite color_pack2rgb_div.
  pose proof (Z.mod_pos_bound packed 256 ltac:(lia)).
  pose proof (Z.mod_pos_bound (packed / 256) 256 ltac:(lia)).
  pose proof (Z.mod_pos_bound (packed / 65536) 256 ltac:(lia)).
  lia.
Qed.

(** Packing three bytes and unpacking the result gives the bytes
    back. *)
Theorem color_pack2rgb_rgb2pack (r g b : Z) :
  0 <= r <= 255 -> 0 <= g <= 255 -> 0 <= b <= 255 ->
  color_pack2rgb (color_rgb2pack r g b) = (r, g, b).
Proof.
  intros Hr Hg Hb. rewrite color_pack2rgb_div. unfold color_rgb2pack.
  rewrite !Z.shiftl_mul_pow2 by lia.
  change (2 ^ 8) with 256. change (2 ^ 16) with 65536.
  assert (E1 : (r + g * 256 + b * 65536) mod 256 = r).
  { replace (r + g * 256 + b * 65536) with (r + (g + b * 256) * 256) by lia.
    rewrite Z.mod_add by lia. apply Z.mod_small. lia. }
  assert (E2 : (r + g * 256 + b * 65536) / 256 = g + b * 256).
  { replace (r + g * 256 + b * 65536) with (r + (g + b * 256) * 256) by lia.
    rewrite Z.div_add by lia. rewrite Z.div_small by lia. lia. }
  assert (E3 : (r + g * 256 + b * 65536) / 65536 = b).
  { replace (r + g * 256 + b * 65536) with ((r + g * 256) + b * 65536)
      by lia.
    rewrite Z.div_add by lia. rewrite Z.div_small by lia. lia. }
  rewrite E1, E2, E3.
  rewrite Z.mod_add by lia. rewrite !Z.mod_small by lia. reflexivity.
Qed.

Lemma color_pack2rgb_rgb2pack_witness :
  color_pack2rgb (color_rgb2pack 18 52 86) = (18, 52, 86).
Proof.
  apply (color_pack2rgb_rgb2pack 18 52 86); lia.
Defined.

(** Unpacking a 24-bit value and packing the components gives the value
    back. *)
Theorem color_rgb2pack_pack2rgb (packed : Z) :
  0 <= packed < 16777216 ->
  let '(r, g, b) := color_pack2rgb packed in
  color_rgb2pack r g b = packed.
Proof.
  intros Hp. rewrite color_pack2rgb_div. unfold color_rgb2pack.
  rewrite !Z.shiftl_mul_pow2 by lia.
  change (2 ^ 8) with 256. change (2 ^ 16) with 65536.
  pose proof (Z.div_mod packed 256 ltac:(lia)) as D1.
  pose proof (Z.div_mod (packed / 256) 256 ltac:(lia)) as D2.
  assert (E : packed / 65536 = packed / 256 / 256)
    by (rewrite Z.div_div by lia; reflexivity).
  assert (Hs : (packed / 65536) mod 256 = packed / 65536).
  { apply Z.mod_small. split; [apply Z.div_pos; lia|].
    apply Z.div_lt_upper_bound; lia. }
  rewrite Hs, E. lia.
Qed.

Lemma color_rgb2pack_pack2rgb_witness :
  let '(r, g, b) := color_pack2rgb 1193046 in
  color_rgb2pack r g b = 1193046.
Proof.
  apply (color_rgb2pack_pack2rgb 1193046); lia.
Defined.

(** [color_pack2rgb] reads the low 24 bits only. *)
Theorem color_pack2rgb_low_bits (packed : Z) :
  color_pack2rgb packed = color_pack2rgb (packed mod 16777216).
Proof.
  rewrite !color_pack2rgb_div.
  pose proof (Z.div_mod packed 16777216 ltac:(lia)) as D.
  set (q := packed / 16777216) in *. set (m := packed mod 16777216) in *.
  rewrite D.
  assert (E1 : (16777216 * q + m) mod 256 = m mod 256).
  { replace (16777216 * q + m) with (m + (65536 * q) * 256) by lia.
    apply Z.mod_add. lia. }
  assert (E2 : ((16777216 * q + m) / 256) mod 256 = (m / 256) mod 256).
  { replace (16777216 * q + m) with (m + (65536 * q) * 256) by lia.
    rewrite Z.div_add by lia.
    replace (m / 256 + 65536 * q) with (m / 256 + (256 * q) * 256) by lia.
    apply Z.mod_add. lia. }
  assert (E3 : ((16777216 * q + m) / 65536) mod 256 = (m / 65536) mod 256).
  { replace (16777216 * q + m) with (m + (256 * q) * 65536) by lia.
    rewrite Z.div_add by lia.
    replace (m / 65536 + 256 * q) with (m / 65536 + q * 256) by lia.
    apply Z.mod_add. lia. }
  rewrite E1, E2, E3. reflexivity.
Qed.

(** ** [unquote_string] *)

Lemma slice_drop_last (pre s : pystr) (c : ascii) :
  Py.slice (pre ++ s ++ [c]) (len pre) (-1) = s.
Proof.
  unfold Py.slice, Py.clip.
  pose proof (len_nonneg pre) as Hp. pose proof (len_nonneg s) as Hs.
  assert (Hl : len (pre ++ s ++ [c]) = len pre + len s + 1)
    by (rewrite !len_app, len_cons, len_nil; lia).
  rewrite Hl.
  replace (len pre <? 0) with false by (symmetry; apply Z.ltb_ge; lia).
  change (-1 <? 0) with true. cbv iota.
  rewrite Z.min_l by lia. rewrite Z.max_r by lia.
  replace (-1 + (len pre + len s + 1) - len pre) with (len s) by lia.
  unfold len. rewrite !Nat2Z.id.
  rewrite skipn_app, skipn_all, Nat.sub_diag. cbn [skipn app].
  rewrite firstn_app, firstn_all, Nat.sub_diag. cbn [firstn].
  apply app_nil_r.
Qed.

(** [unquote_string] drops the first and the last character of a text
    that starts with a quote mark, and the first two and the last of a
    text that starts with any other character (the [u] or [r] of a
    prefixed literal, with the quote mark behind it): of a string literal
    it gives what stands between the quotes. *)
Theorem unquote_string_literal (c : ascii) (t : pystr) :
  unquote_string (c :: t)
  = Ret (if Py.mem c [dquote; "'"%char]
         then removelast t else removelast (tl t))
  /\ (forall s last,
        Py.mem c [dquote; "'"%char] = true -> t = s ++ [last] ->
        unquote_string (c :: t) = Ret s)
  /\ (forall c2 s last,
        Py.mem c [dquote; "'"%char] = false -> t = c2 :: s ++ [last] ->
        unquote_string (c :: t) = Ret s).
Proof.
  assert (H1 : forall s last, Py.slice (c :: s ++ [last]) 1 (-1) = s)
    by (intros s last; apply (slice_drop_last [c] s last)).
  assert (H2 : forall c2 s last,
             Py.slice (c :: c2 :: s ++ [last]) 2 (-1) = s)
    by (intros c2 s last; apply (slice_drop_last [c; c2] s last)).
  assert (G : unquote_string (c :: t)
              = Ret (if Py.mem c [dquote; "'"%char]
                     then removelast t else removelast (tl t))).
  { unfold unquote_string.
    change (Py.getitem (c :: t) 0) with (Ret c). cbn [bind].
    destruct (Py.mem c [dquote; "'"%char]); f_equal.
    - destruct t as [|last s _] using rev_ind; [reflexivity|].
      rewrite removelast_last. apply H1.
    - destruct t as [|c2 t]; [reflexivity|]. cbn [tl].
      destruct t as [|last s _] using rev_ind; [reflexivity|].
      rewrite removelast_last. apply H2. }
  split; [exact G|]. split.
  - intros s last Hc ->. rewrite G, Hc, removelast_last. reflexivity.
  - intros c2 s last Hc ->. rewrite G, Hc. cbn [tl].
    rewrite removelast_last. reflexivity.
Qed.

Lemma unquote_string_literal_witness :
  unquote_string (lit "'it, is'") = Ret (lit "it, is")
  /\ unquote_string (lit "u'it, is'") = Ret (lit "it, is")
  /\ unquote_string (lit "abcd") = Ret (lit "c").
Proof.
  split; [|split].
  - apply (proj1 (proj2 (unquote_string_literal "'" (lit "it, is'")))
             (lit "it, is") "'"%char); reflexivity.
  - apply (proj2 (proj2 (unquote_string_literal "u" (lit "'it, is'")))
             "'"%char (lit "it, is") "'"%char); reflexivity.
  - apply (proj2 (proj2 (unquote_string_literal "a" (lit "bcd")))
             "b"%char (lit "c") "d"%char); reflexivity.
Defined.

(** [unquote_string] raises, an [IndexError], on the empty string and on
    nothing else. *)
Theorem unquote_string_raises (code : pystr) :
  (code = [] -> unquote_string code = Raise IndexError)
  /\ (code <> [] -> exists s, unquote_string code = Ret s).
Proof.
  split.
  - intros ->. reflexivity.
  - intros Hne. destruct code as [|c code]; [contradiction|].
    unfold unquote_string.
    change (Py.getitem (c :: code) 0) with (Ret c). cbn [bind]. eauto.
Qed.

Lemma unquote_string_raises_witness :
  unquote_string [] = Raise IndexError
  /\ exists s, unquote_string (lit "x") = Ret s.
Proof.
  split.
  - apply (proj1 (unquote_string_raises [])). reflexivity.
  - apply (proj2 (unquote_string_raises (lit "x"))). discriminate.
Defined.

(** ** [parse_dict_strings] *)

Lemma lstrip_head s c r : Py.lstrip s = c :: r -> Py.isspace c = false.
Proof.
  induction s as [|a s IH]; intros H; [discriminate|].
  cbn [Py.lstrip] in H. destruct (Py.isspace a) eqn:E; [auto|].
  injection H as <- _. exact E.
Qed.

Lemma lstrip_suffix s : exists pre, s = pre ++ Py.lstrip s.
Proof.
  induction s as [|a s [pre IH]]; [exists []; reflexivity|].
  cbn [Py.lstrip]. destruct (Py.isspace a).
  - exists (a :: pre). cbn [app]. f_equal. exact IH.
  - exists []. reflexivity.
Qed.

Lemma lstrip_fixed s :
  (forall c r, s = c :: r -> Py.isspace c = false) -> Py.lstrip s = s.
Proof.
  intros H. destruct s as [|c r]; [reflexivity|].
  cbn [Py.lstrip]. rewrite (H c r eq_refl). reflexivity.
Qed.

(** What [strip] returns has no whitespace at either end. *)
Lemma strip_trimmed s :
  Py.lstrip (strip s) = strip s
  /\ Py.lstrip (rev (strip s)) = rev (strip s).
Proof.
  unfold strip. set (u := Py.lstrip (rev (Py.lstrip s))).
  split.
  - apply lstrip_fixed. intros c r E.
    destruct (lstrip_suffix (rev (Py.lstrip s))) as [pre Hp].
    fold u in Hp.
    assert (Hs : Py.lstrip s = rev u ++ rev pre).
    { rewrite <- (rev_involutive (Py.lstrip s)), Hp, rev_app_distr.
      reflexivity. }
    rewrite E in Hs. cbn [app] in Hs.
    apply (lstrip_head s c _ Hs).
  - rewrite rev_involutive. apply lstrip_fixed. intros c r E.
    apply (lstrip_head (rev (Py.lstrip s)) c r). exact E.
Qed.

Lemma parse_dict_loop_trimmed code rest i last level chunk_start paren e :
  In e (parse_dict_loop code rest i last level chunk_start paren) ->
  Py.lstrip e = e /\ Py.lstrip (rev e) = rev e.
Proof.
  revert i last level chunk_start paren.
  induction rest as [|char rest IH]; intros i last level chunk_start paren H.
  - cbn [parse_dict_loop] in H. destruct H as [<- | []].
    apply strip_trimmed.
  - cbn [parse_dict_loop] in H.
    destruct (track char level paren) as [level' paren'].
    destruct ((level' =? 0) && Py.mem char (lit ":,") && is_none paren').
    + destruct H as [<- | H]; [apply strip_trimmed | apply (IH _ _ _ _ _ H)].
    + apply (IH _ _ _ _ _ H).
Qed.

(** No element [parse_dict_strings] yields has whitespace at its start or
    at its end. *)
Theorem parse_dict_strings_trimmed (code e : pystr) :
  In e (parse_dict_strings code) ->
  Py.lstrip e = e /\ Py.lstrip (rev e) = rev e.
Proof. apply parse_dict_loop_trimmed. Qed.

Lemma parse_dict_strings_trimmed_witness :
  Py.lstrip (lit "(2, 3)") = lit "(2, 3)"
  /\ Py.lstrip (rev (lit "(2, 3)")) = rev (lit "(2, 3)").
Proof.
  apply (parse_dict_strings_trimmed (lit " 'b' : (2, 3) , 'c': 4")
           (lit "(2, 3)")).
  right. left. reflexivity.
Defined.

(** A character that is no bracket and no quote mark. *)
Lemma track_flat char :
  Py.mem char (lit "([{)]}") = false ->
  Py.mem char [dquote; "'"%char] = false ->
  track char 0 None = (0, None).
Proof.
  intros Hb Hq. unfold track. rewrite Hq.
  cbn [lit String.list_ascii_of_string Py.mem existsb] in *.
  repeat (apply orb_false_iff in Hb; destruct Hb as [? Hb]).
  repeat match goal with H : Ascii.eqb _ _ = false |- _ =>
    rewrite H; clear H end.
  reflexivity.
Qed.

Lemma parse_dict_loop_flat rest :
  forall (done chunk : pystr) last,
  forallb (fun c => negb (Py.mem c (lit "([{)]}"))
                    && negb (Py.mem c [dquote; "'"%char])) rest = true ->
  (rest = [] ->
   last + 1 = len (done ++ chunk) \/ (done ++ chunk = [] /\ last = 0)) ->
  parse_dict_loop (done ++ chunk ++ rest) rest (len (done ++ chunk)) last
    0 (len done) None
  = map strip (split_flat rest (rev chunk)).
Proof.
  induction rest as [|char rest IH]; intros done chunk last Hflat Hlast.
  - cbn [parse_dict_loop split_flat map]. rewrite rev_involutive.
    f_equal. f_equal. rewrite app_nil_r in *.
    destruct (Hlast eq_refl) as [-> | [E ->]].
    + rewrite len_app.
      rewrite <- (app_nil_r chunk) at 1. apply slice_app.
    + apply app_eq_nil in E. destruct E as [-> ->]. reflexivity.
  - cbn [forallb] in Hflat. apply andb_true_iff in Hflat.
    destruct Hflat as [Hc Hflat]. apply andb_true_iff in Hc.
    destruct Hc as [Hb Hq]. apply negb_true_iff in Hb, Hq.
    cbn [parse_dict_loop split_flat]. rewrite (track_flat char Hb Hq).
    cbn [Z.eqb is_none andb]. rewrite andb_true_r.
    destruct (Py.mem char (lit ":,")) eqn:Hsep.
    + cbn [map]. rewrite rev_involutive. f_equal.
      * f_equal. rewrite len_app. apply slice_app.
      * specialize (IH (done ++ chunk ++ [char]) [] (len (done ++ chunk))
                      Hflat).
        cbn [rev] in IH. rewrite app_nil_r in IH.
        replace ((done ++ chunk ++ [char]) ++ [] ++ rest)
          with (done ++ chunk ++ char :: rest) in IH
          by (rewrite <- !app_assoc; reflexivity).
        replace (len (done ++ chunk ++ [char]))
          with (len (done ++ chunk) + 1) in IH
          by (rewrite !len_app, len_cons, len_nil; lia).
        apply IH. intros _. left. reflexivity.
    + specialize (IH done (chunk ++ [char]) (len (done ++ chunk)) Hflat).
      rewrite rev_app_distr in IH. cbn [rev app] in IH.
      replace (done ++ (chunk ++ [char]) ++ rest)
        with (done ++ chunk ++ char :: rest) in IH
        by (rewrite <- !app_assoc; reflexivity).
      replace (len (done ++ chunk ++ [char]))
        with (len (done ++ chunk) + 1) in IH
        by (rewrite !len_app, len_cons, len_nil; lia).
      apply IH. intros _. left. rewrite ?len_app, ?len_cons, ?len_nil. lia.
Qed.

(** On a text without brackets and quote marks [parse_dict_strings]
    yields the pieces between its colons and commas, each stripped. *)
Theorem parse_dict_strings_flat (code : pystr) :
  forallb (fun c => negb (Py.mem c (lit "([{)]}"))
                    && negb (Py.mem c [dquote; "'"%char])) code = true ->
  parse_dict_strings code = map strip (split_flat code []).
Proof.
  intros Hflat. unfold parse_dict_strings.
  pose proof (parse_dict_loop_flat code [] [] 0 Hflat) as H.
  cbn [app rev] in H. change (len []) with 0 in H.
  apply H. intros ->. right. split; reflexivity.
Qed.

Lemma parse_dict_strings_flat_witness :
  parse_dict_strings (lit "a: 1, b : 2")
  = map strip (split_flat (lit "a: 1, b : 2") []).
Proof.
  apply (parse_dict_strings_flat (lit "a: 1, b : 2")). reflexivity.
Defined.

Lemma strip_fixed (a z : ascii) (s : pystr) :
  Py.isspace a = false -> Py.isspace z = false ->
  strip (a :: s ++ [z]) = a :: s ++ [z].
Proof.
  intros Ha Hz. unfold strip.
  assert (E1 : Py.lstrip (a :: s ++ [z]) = a :: s ++ [z])
    by (cbn [Py.lstrip]; rewrite Ha; reflexivity).
  rewrite E1.
  change (a :: s ++ [z]) with ((a :: s) ++ [z]).
  rewrite rev_app_distr. cbn [rev app Py.lstrip]. rewrite Hz.
  cbn [rev]. rewrite rev_app_distr, rev_involutive. reflexivity.
Qed.

Lemma slice_whole (t : pystr) : Py.slice t 0 (len t) = t.
Proof.
  pose proof (slice_app [] t []) as H. cbn [app] in H.
  rewrite app_nil_r in H. exact H.
Qed.

(** Inside a quoted run opened by [q] nothing is yielded and nothing
    changes until [q] comes again. *)
Lemma parse_dict_loop_in_quotes code q s :
  forall rest i last level chunk_start,
  forallb (fun c => negb (Ascii.eqb q c)) s = true ->
  exists last',
    parse_dict_loop code (s ++ rest) i last level chunk_start (Some q)
    = parse_dict_loop code rest (i + len s) last' level chunk_start (Some q)
    /\ (s = [] -> last' = last) /\ (s <> [] -> last' = i + len s - 1).
Proof.
  induction s as [|c s IH]; intros rest i last level chunk_start Hs.
  - exists last. rewrite len_nil, Z.add_0_r. cbn [app].
    repeat split; auto. intros H; contradiction.
  - cbn [forallb] in Hs. apply andb_true_iff in Hs. destruct Hs as [Hc Hs].
    apply negb_true_iff in Hc.
    destruct (IH rest (i + 1) i level chunk_start Hs) as (last' & E & L1 & L2).
    exists (i + len (c :: s) - 1).
    split; [|split; [discriminate | reflexivity]].
    cbn [app parse_dict_loop].
    assert (T : track c level (Some q) = (level, Some q)).
    { unfold track. cbn [is_none same_paren]. rewrite !andb_false_r, Hc.
      destruct (Py.mem c [dquote; "'"%char]); reflexivity. }
    rewrite T. cbn [is_none]. rewrite andb_false_r.
    rewrite E. rewrite len_cons.
    replace (i + 1 + len s) with (i + (1 + len s)) by lia.
    f_equal. destruct s as [|c' s'].
    + rewrite (L1 eq_refl), len_nil. lia.
    + rewrite (L2 ltac:(discriminate)). lia.
Qed.

(** A quoted run that stands alone is one element, whatever it holds
    between its quote marks: colons, commas, brackets, the other quote
    mark. *)
Theorem parse_dict_strings_quoted (q : ascii) (s : pystr) :
  Py.mem q [dquote; "'"%char] = true ->
  forallb (fun c => negb (Ascii.eqb q c)) s = true ->
  parse_dict_strings (q :: s ++ [q]) = [q :: s ++ [q]].
Proof.
  intros Hq Hs. unfold parse_dict_strings.
  set (code := q :: s ++ [q]).
  assert (Hsp : Py.isspace q = false /\ Py.mem q (lit "([{") = false
                /\ Py.mem q (lit ")]}") = false
                /\ Py.mem q (lit ":,") = false).
  { cbn [Py.mem existsb] in Hq. rewrite orb_false_r in Hq.
    apply orb_true_iff in Hq.
    destruct Hq as [Hq|Hq]; apply Ascii.eqb_eq in Hq; subst q;
      repeat split; reflexivity. }
  destruct Hsp as (Sp & O & C & Sep).
  unfold code at 2. cbn [parse_dict_loop].
  assert (T1 : track q 0 None = (0, Some q)).
  { unfold track. rewrite O, C, Hq. reflexivity. }
  rewrite T1. cbn [is_none]. rewrite andb_false_r.
  destruct (parse_dict_loop_in_quotes code q s [q] (0 + 1) 0 0 0 Hs)
    as (last' & E & _ & _).
  rewrite E. cbn [parse_dict_loop].
  assert (T2 : track q 0 (Some q) = (0, None)).
  { unfold track. cbn [is_none same_paren].
    rewrite !andb_false_r, Hq, Ascii.eqb_refl. reflexivity. }
  rewrite T2, Sep. rewrite andb_false_r. cbn [andb].
  f_equal.
  replace (0 + 1 + len s + 1) with (len code)
    by (unfold code; rewrite len_cons, len_app, len_cons, len_nil; lia).
  rewrite slice_whole. apply strip_fixed; exact Sp.
Qed.

Lemma parse_dict_strings_quoted_witness :
  parse_dict_strings (lit "'x, y: (z'") = [lit "'x, y: (z'"].
Proof.
  apply (parse_dict_strings_quoted "'" (lit "x, y: (z")); reflexivity.
Defined.

(** Inside one pair of brackets, and outside quotes, nothing is
    yielded. *)
Lemma parse_dict_loop_in_brackets code s :
  forall rest i last chunk_start,
  forallb (fun c => negb (Py.mem c (lit "([{)]}"))
                    && negb (Py.mem c [dquote; "'"%char])) s = true ->
  exists last',
    parse_dict_loop code (s ++ rest) i last 1 chunk_start None
    = parse_dict_loop code rest (i + len s) last' 1 chunk_start None
    /\ (s = [] -> last' = last) /\ (s <> [] -> last' = i + len s - 1).
Proof.
  induction s as [|c s IH]; intros rest i last chunk_start Hs.
  - exists last. rewrite len_nil, Z.add_0_r. cbn [app].
    repeat split; auto. intros H; contradiction.
  - cbn [forallb] in Hs. apply andb_true_iff in Hs. destruct Hs as [Hc Hs].
    apply andb_true_iff in Hc. destruct Hc as [Hb Hq].
    apply negb_true_iff in Hb, Hq.
    destruct (IH rest (i + 1) i chunk_start Hs) as (last' & E & L1 & L2).
    exists (i + len (c :: s) - 1).
    split; [|split; [discriminate | reflexivity]].
    cbn [app parse_dict_loop].
    assert (T : track c 1 None = (1, None)).
    { unfold track. rewrite Hq.
      cbn [lit String.list_ascii_of_string Py.mem existsb] in *.
      repeat (apply orb_false_iff in Hb; destruct Hb as [? Hb]).
      repeat match goal with H : Ascii.eqb _ _ = false |- _ =>
        rewrite H; clear H end.
      reflexivity. }
    rewrite T. cbn [Z.eqb andb].
    rewrite E. rewrite len_cons.
    replace (i + 1 + len s) with (i + (1 + len s)) by lia.
    f_equal. destruct s as [|c' s'].
    + rewrite (L1 eq_refl), len_nil. lia.
    + rewrite (L2 ltac:(discriminate)). lia.
Qed.

(** A bracketed group that stands alone is one element: the colons and
    commas between an opening and a closing bracket, of whatever kinds,
    do not split it. *)
Theorem parse_dict_strings_bracketed (o c : ascii) (s : pystr) :
  Py.mem o (lit "([{") = true -> Py.mem c (lit ")]}") = true ->
  forallb (fun c => negb (Py.mem c (lit "([{)]}"))
                    && negb (Py.mem c [dquote; "'"%char])) s = true ->
  parse_dict_strings (o :: s ++ [c]) = [o :: s ++ [c]].
Proof.
  intros Ho Hc Hs. unfold parse_dict_strings.
  set (code := o :: s ++ [c]).
  assert (Ho' : Py.isspace o = false /\ Py.mem o (lit ":,") = false).
  { cbn [lit String.list_ascii_of_string Py.mem existsb] in Ho.
    rewrite orb_false_r in Ho.
    repeat (apply orb_true_iff in Ho; destruct Ho as [Ho|Ho]);
      apply Ascii.eqb_eq in Ho; subst o; split; reflexivity. }
  assert (Hc' : Py.isspace c = false /\ Py.mem c (lit ":,") = false
                /\ Py.mem c (lit "([{") = false).
  { cbn [lit String.list_ascii_of_string Py.mem existsb] in Hc.
    rewrite orb_false_r in Hc.
    repeat (apply orb_true_iff in Hc; destruct Hc as [Hc|Hc]);
      apply Ascii.eqb_eq in Hc; subst c; repeat split; reflexivity. }
  destruct Ho' as (So & Sepo). destruct Hc' as (Sc & Sepc & Oc).
  unfold code at 2. cbn [parse_dict_loop].
  assert (T1 : track o 0 None = (1, None)).
  { unfold track. rewrite Ho. reflexivity. }
  rewrite T1. cbn [Z.eqb andb].
  destruct (parse_dict_loop_in_brackets code s [c] (0 + 1) 0 0 Hs)
    as (last' & E & _ & _).
  rewrite E. cbn [parse_dict_loop].
  assert (T2 : track c 1 None = (0, None)).
  { unfold track. rewrite Oc, Hc. reflexivity. }
  rewrite T2, Sepc. cbn [Z.eqb andb].
  f_equal.
  replace (0 + 1 + len s + 1) with (len code)
    by (unfold code; rewrite len_cons, len_app, len_cons, len_nil; lia).
  rewrite slice_whole. apply strip_fixed; assumption.
Qed.

Lemma parse_dict_strings_bracketed_witness :
  parse_dict_strings (lit "(1, 2: 3]") = [lit "(1, 2: 3]"].
Proof.
  apply (parse_dict_strings_bracketed "(" "]" (lit "1, 2: 3")); reflexivity.
Defined.

(** ** [common_start] *)

Lemma prefixb_iff p s : Py.prefixb p s = true <-> exists r, s = p ++ r.
Proof.
  revert s. induction p as [|a p IH]; intros s.
  - split; [intros _; exists s; reflexivity | reflexivity].
  - destruct s as [|b s]; cbn [Py.prefixb].
    + split; [discriminate | intros [r E]; discriminate E].
    + rewrite andb_true_iff, IH. split.
      * intros [E [r ->]]. apply Ascii.eqb_eq in E. subst b.
        exists r. reflexivity.
      * intros [r E]. cbn [app] in E. injection E as -> ->.
        split; [apply Ascii.eqb_refl | exists r; reflexivity].
Qed.

Lemma prefixb_firstn k s : Py.prefixb (firstn k s) s = true.
Proof.
  apply prefixb_iff. exists (skipn k s). symmetry. apply firstn_skipn.
Qed.

Lemma prefixb_firstn_le j k m s :
  (j <= k)%nat -> Py.prefixb (firstn k m) s = true ->
  Py.prefixb (firstn j m) s = true.
Proof.
  intros Hjk H. apply prefixb_iff in H. destruct H as [r ->].
  apply prefixb_iff.
  exists (skipn j (firstn k m) ++ r).
  rewrite app_assoc. f_equal.
  rewrite <- (firstn_skipn j (firstn k m)) at 1. f_equal.
  rewrite firstn_firstn. f_equal. lia.
Qed.

Lemma slice_to_drop_last k (m : pystr) :
  (S k <= length m)%nat ->
  Py.slice_to (firstn (S k) m) (-1) = firstn k m.
Proof.
  intros Hk. unfold Py.slice_to, Py.slice, Py.clip.
  assert (Hl : len (firstn (S k) m) = Z.of_nat (S k)).
  { unfold len. rewrite length_firstn. lia. }
  rewrite Hl. change (0 <? 0) with false. change (-1 <? 0) with true.
  cbv iota. rewrite Z.min_l by lia. rewrite Z.max_r by lia.
  replace (Z.to_nat (-1 + Z.of_nat (S k) - 0)) with k by lia.
  cbn [Z.to_nat skipn]. rewrite firstn_firstn. f_equal. lia.
Qed.

Lemma all_startswith_le strings (m : pystr) j k :
  (j <= k)%nat ->
  forallb (fun string => startswith string (firstn k m)) strings = true ->
  forallb (fun string => startswith string (firstn j m)) strings = true.
Proof.
  intros Hjk H. rewrite forallb_forall in *. intros s Hs.
  apply (prefixb_firstn_le j k m s Hjk). apply (H s Hs).
Qed.

(** The loop, from the start string of length [k] on: it ends on a start
    string of [m] that all strings begin with, and on the longest such. *)
Lemma common_start_loop_spec strings (m : pystr) n :
  forall k, (k + n = length m)%nat ->
  forallb (fun string => startswith string (firstn k m)) strings = true ->
  exists j,
    common_start_loop strings
      (map (fun i => Py.slice_to m (Z.of_nat i)) (seq (S k) n)) (firstn k m)
    = firstn j m
    /\ (k <= j <= k + n)%nat
    /\ forallb (fun string => startswith string (firstn j m)) strings = true
    /\ forall j', (j' <= k + n)%nat ->
         forallb (fun string => startswith string (firstn j' m)) strings
         = true -> (j' <= j)%nat.
Proof.
  induction n as [|n IH]; intros k Hk Hall.
  - exists k. cbn [seq map common_start_loop].
    repeat split; auto; lia.
  - cbn [seq map common_start_loop].
    rewrite slice_to_firstn by lia. rewrite Nat2Z.id.
    destruct (forallb (fun string => startswith string (firstn (S k) m))
                strings) eqn:Hnext; cbn [negb].
    + destruct (IH (S k) ltac:(lia) Hnext) as (j & E & Hj & A & M).
      exists j. repeat split; auto; try lia.
      intros j' Hj' Hall'. apply M; [lia | exact Hall'].
    + exists k. rewrite slice_to_drop_last by lia.
      repeat split; auto; try lia.
      intros j' Hj' Hall'.
      destruct (Nat.le_gt_cases j' k) as [H|H]; [exact H|].
      rewrite (all_startswith_le strings m (S k) j' ltac:(lia) Hall')
        in Hnext. discriminate Hnext.
Qed.

Lemma max_string_In first others :
  In (max_string first others) (first :: others).
Proof.
  unfold max_string. revert first.
  induction others as [|s others IH]; intros first; [left; reflexivity|].
  cbn [fold_left].
  destruct (IH (if str_gt s first then s else first)) as [H|H].
  - destruct (str_gt s first).
    + right. left. exact H.
    + left. exact H.
  - right. right. exact H.
Qed.

Lemma common_start_spec first others :
  exists j,
    common_start (first :: others) = firstn j (max_string first others)
    /\ forallb (fun string =>
                  startswith string (firstn j (max_string first others)))
         (first :: others) = true
    /\ forall j', (j' <= length (max_string first others))%nat ->
         forallb (fun string =>
                    startswith string (firstn j' (max_string first others)))
           (first :: others) = true -> (j' <= j)%nat.
Proof.
  unfold common_start, gen_start_strings.
  set (m := max_string first others).
  assert (H0 : forallb (fun string => startswith string (firstn 0 m))
                 (first :: others) = true).
  { apply forallb_forall. intros s _. reflexivity. }
  destruct (common_start_loop_spec (first :: others) m (length m) 0
              eq_refl H0) as (j & E & Hj & A & M).
  exists j. repeat split; auto.
Qed.

(** Every string of the list begins with what [common_start] returns. *)
Theorem common_start_common (strings : list pystr) (string : pystr) :
  In string strings ->
  startswith string (common_start strings) = true.
Proof.
  intros Hin. destruct strings as [|first others]; [destruct Hin|].
  destruct (common_start_spec first others) as (j & E & A & _).
  rewrite E. rewrite forallb_forall in A. apply (A string Hin).
Qed.

Lemma common_start_common_witness :
  startswith (lit "abxy") (common_start [lit "abcd"; lit "abxy"; lit "abc"])
  = true.
Proof.
  apply (common_start_common [lit "abcd"; lit "abxy"; lit "abc"]
           (lit "abxy")).
  right. left. reflexivity.
Defined.

(** What [common_start] returns is the longest common start: it begins
    with every text that all strings of a list that is not empty begin
    with. *)
Theorem common_start_longest (strings : list pystr) (p : pystr) :
  strings <> [] ->
  (forall string, In string strings -> startswith string p = true) ->
  startswith (common_start strings) p = true.
Proof.
  intros Hne Hp. destruct strings as [|first others]; [contradiction|].
  destruct (common_start_spec first others) as (j & E & _ & M).
  set (m := max_string first others) in *.
  pose proof (Hp m (max_string_In first others)) as Hm.
  apply prefixb_iff in Hm. destruct Hm as [r Hm].
  assert (Ep : p = firstn (length p) m).
  { rewrite Hm, firstn_app, Nat.sub_diag, firstn_all. cbn [firstn].
    symmetry. apply app_nil_r. }
  assert (Hlen : (length p <= length m)%nat)
    by (rewrite Hm, length_app; lia).
  assert (Hall : forallb (fun string =>
                   startswith string (firstn (length p) m))
                   (first :: others) = true).
  { apply forallb_forall. intros s Hs. rewrite <- Ep. apply (Hp s Hs). }
  pose proof (M (length p) Hlen Hall) as Hle.
  rewrite E. unfold startswith. rewrite Ep.
  apply (prefixb_firstn_le (length p) j m (firstn j m) Hle).
  apply prefixb_iff. exists []. symmetry. apply app_nil_r.
Qed.

Lemma common_start_longest_witness :
  startswith (common_start [lit "abcd"; lit "abxy"; lit "abc"]) (lit "a")
  = true.
Proof.
  apply (common_start_longest [lit "abcd"; lit "abxy"; lit "abc"] (lit "a")).
  - discriminate.
  - intros string [<- | [<- | [<- | []]]]; reflexivity.
Defined.

(** ** [findpos] and [findcolon] always return *)

Lemma skip_level_returns fuel text bracketlevel pos :
  0 <= pos -> (Z.to_nat (len text - pos) < fuel)%nat ->
  exists bracketlevel' pos',
    skip_level fuel text bracketlevel pos = Ret (bracketlevel', pos')
    /\ pos <= pos'.
Proof.
  revert bracketlevel pos.
  induction fuel as [|fuel IH]; intros bracketlevel pos Hpos Hfuel; [lia|].
  cbn [skip_level].
  destruct ((0 <? bracketlevel) && (pos <? len text)) eqn:E.
  - apply andb_true_iff in E. destruct E as [_ E]. apply Z.ltb_lt in E.
    destruct (getitem_inside text pos ltac:(lia)) as [c Hc].
    rewrite Hc. cbn [bind].
    destruct (IH (level_step c bracketlevel) (pos + 1) ltac:(lia)
                ltac:(lia)) as (bl' & pos' & R & Hle).
    exists bl', pos'. split; [exact R | lia].
  - exists bracketlevel, pos. split; [reflexivity | lia].
Qed.

Lemma findpos_loop_returns fuel text bracketlevel pos :
  0 <= pos -> (Z.to_nat (len text - pos) < fuel)%nat ->
  exists r, findpos_loop fuel text bracketlevel pos = Ret r.
Proof.
  revert bracketlevel pos.
  induction fuel as [|fuel IH]; intros bracketlevel pos Hpos Hfuel; [lia|].
  cbn [findpos_loop].
  destruct (pos <? len text) eqn:E; [|eauto].
  apply Z.ltb_lt in E.
  destruct (getitem_inside text pos ltac:(lia)) as [c Hc].
  rewrite Hc. cbn [bind].
  destruct (Ascii.eqb c ","); [eauto|].
  destruct (Py.mem c openers).
  - destruct (skip_level_returns (S fuel) text (bracketlevel + 1) pos Hpos
                ltac:(lia)) as (bl' & pos' & R & Hle).
    rewrite R. cbn [bind]. apply IH; lia.
  - apply IH; lia.
Qed.

(** [findpos] returns on every text, without raising; what it returns is
    the text itself or the part of it before one of its commas. *)
Theorem findpos_returns (fuel : nat) (text : pystr) :
  (length text < fuel)%nat ->
  exists r,
    findpos fuel text = Ret r
    /\ (r = text \/ exists rest, text = r ++ ","%char :: rest).
Proof.
  intros Hfuel.
  destruct (findpos_loop_returns fuel text 0 0 ltac:(lia)
              ltac:(unfold len; lia)) as [r Hr].
  exists r. split; [exact Hr|]. apply (findpos_inv fuel text r Hr).
Qed.

Lemma findpos_returns_witness :
  exists r,
    findpos 20 (lit "f(1), 2") = Ret r
    /\ (r = lit "f(1), 2"
        \/ exists rest, lit "f(1), 2" = r ++ ","%char :: rest).
Proof.
  apply (findpos_returns 20 (lit "f(1), 2")).
  cbn [lit String.list_ascii_of_string length]. lia.
Defined.

Lemma findcolon_loop_returns fuel text bracketlevel pos :
  0 <= pos -> (Z.to_nat (len text - pos) < fuel)%nat ->
  exists colon bracketlevel',
    findcolon_loop fuel text bracketlevel pos = Ret (colon, bracketlevel')
    /\ (colon = -1 \/ Py.getitem text colon = Ret ":"%char).
Proof.
  revert bracketlevel pos.
  induction fuel as [|fuel IH]; intros bracketlevel pos Hpos Hfuel; [lia|].
  cbn [findcolon_loop].
  destruct (pos <? len text) eqn:E; [|eauto].
  apply Z.ltb_lt in E.
  destruct (getitem_inside text pos ltac:(lia)) as [c Hc].
  rewrite Hc. cbn [bind].
  destruct (Ascii.eqb c ":") eqn:Ec.
  - apply Ascii.eqb_eq in Ec. subst c. eauto.
  - destruct (Py.mem c openers).
    + destruct (skip_level_returns (S fuel) text (bracketlevel + 1) pos Hpos
                  ltac:(lia)) as (bl' & pos' & R & Hle).
      rewrite R. cbn [bind]. apply IH; lia.
    + apply IH; lia.
Qed.

(** [findcolon] returns on every pair of strings, without raising; each
    of the two offsets is [-1] or the offset of a colon in its string. *)
Theorem findcolon_returns (fuel : nat) (a b : pystr) :
  (length a < fuel)%nat -> (length b < fuel)%nat ->
  exists colon0 colon1,
    findcolon fuel (a, b) = Ret (colon0, colon1)
    /\ (colon0 = -1 \/ Py.getitem a colon0 = Ret ":"%char)
    /\ (colon1 = -1 \/ Py.getitem b colon1 = Ret ":"%char).
Proof.
  intros Ha Hb. unfold findcolon. cbn [fst snd].
  destruct (findcolon_loop_returns fuel a 0 0 ltac:(lia)
              ltac:(unfold len; lia)) as (c0 & bl & E0 & H0).
  rewrite E0. cbn [bind].
  destruct (findcolon_loop_returns fuel b bl 0 ltac:(lia)
              ltac:(unfold len; lia)) as (c1 & bl' & E1 & H1).
  rewrite E1. cbn [bind]. eauto.
Qed.

Lemma findcolon_returns_witness :
  exists colon0 colon1,
    findcolon 20 (lit "1:2", lit " 3") = Ret (colon0, colon1)
    /\ (colon0 = -1 \/ Py.getitem (lit "1:2") colon0 = Ret ":"%char)
    /\ (colon1 = -1 \/ Py.getitem (lit " 3") colon1 = Ret ":"%char).
Proof.
  apply (findcolon_returns 20 (lit "1:2") (lit " 3"));
    cbn [lit String.list_ascii_of_string length]; lia.
Defined.

(** ** [findpos] where no bracket opens *)

Lemma findpos_loop_no_opener fuel a b rest :
  forallb (fun c => negb (Ascii.eqb c ",") && negb (Py.mem c openers)) b
  = true ->
  rest = [] \/ (exists r, rest = ","%char :: r) ->
  (length b < fuel)%nat ->
  findpos_loop fuel (a ++ b ++ rest) 0 (len a) = Ret (a ++ b).
Proof.
  revert a fuel. induction b as [|c b IH]; intros a fuel Hb Hrest Hfuel.
  - destruct fuel as [|fuel]; [cbn [length] in Hfuel; lia|].
    cbn [app findpos_loop].
    destruct Hrest as [-> | [r ->]].
    + rewrite app_nil_r, Z.ltb_irrefl. reflexivity.
    + replace (len a <? len (a ++ ","%char :: r)) with true
        by (symmetry; apply Z.ltb_lt; rewrite len_app, len_cons;
            pose proof (len_nonneg r); lia).
      rewrite getitem_app_here. cbn [bind].
      change (Ascii.eqb "," ",") with true. cbv iota.
      rewrite slice_to_app, app_nil_r. reflexivity.
  - destruct fuel as [|fuel]; [cbn [length] in Hfuel; lia|].
    cbn [forallb] in Hb. apply andb_true_iff in Hb. destruct Hb as [Hc Hb].
    apply andb_true_iff in Hc. destruct Hc as [N1 N4].
    apply negb_true_iff in N1, N4.
    cbn [findpos_loop].
    replace (len a <? len (a ++ (c :: b) ++ rest)) with true
      by (symmetry; apply Z.ltb_lt; rewrite len_app;
          change ((c :: b) ++ rest) with (c :: b ++ rest);
          rewrite len_cons; pose proof (len_nonneg (b ++ rest)); lia).
    change ((c :: b) ++ rest) with (c :: b ++ rest).
    rewrite getitem_app_here. cbn [bind]. rewrite N1, N4.
    specialize (IH (a ++ [c]) fuel Hb Hrest).
    rewrite <- !app_assoc in IH. cbn [app] in IH.
    rewrite len_app, len_cons, len_nil in IH.
    replace (len a + (1 + 0)) with (len a + 1) in IH by lia.
    apply IH. cbn [length] in Hfuel. lia.
Qed.

(** On a text in which no bracket opens, [findpos] returns what stands
    before the first comma, and the whole text when it has no comma: the
    result holds no comma. *)
Theorem findpos_no_opener (fuel : nat) (text : pystr) :
  forallb (fun c => negb (Py.mem c openers)) text = true ->
  (length text < fuel)%nat ->
  exists r,
    findpos fuel text = Ret r
    /\ ~ In ","%char r
    /\ (r = text \/ exists rest, text = r ++ ","%char :: rest).
Proof.
  intros Hno Hfuel.
  assert (Split : exists b rest,
            text = b ++ rest
            /\ forallb (fun c => negb (Ascii.eqb c ",")) b = true
            /\ (rest = [] \/ exists r, rest = ","%char :: r)).
  { destruct (in_dec ascii_dec ","%char text) as [Hin|Hnin].
    - destruct (first_occurrence ","%char text Hin) as (l1 & l2 & E & F).
      exists l1, (","%char :: l2). repeat split; eauto.
    - exists text, []. rewrite app_nil_r. repeat split; auto.
      apply forallb_forall. intros c Hc. apply negb_true_iff.
      apply Ascii.eqb_neq. intros ->. contradiction. }
  destruct Split as (b & rest & E & Fb & Hrest).
  assert (Hb : forallb (fun c => negb (Ascii.eqb c ",")
                                 && negb (Py.mem c openers)) b = true).
  { apply forallb_forall. intros c Hc.
    rewrite forallb_forall in Fb, Hno.
    rewrite (Fb c Hc). apply Hno. rewrite E. apply in_or_app. left. exact Hc. }
  exists b. split.
  - unfold findpos. rewrite E.
    apply (findpos_loop_no_opener fuel [] b rest Hb Hrest).
    rewrite E, length_app in Hfuel. lia.
  - split.
    + intros Hin. rewrite forallb_forall in Fb.
      specialize (Fb _ Hin). discriminate Fb.
    + destruct Hrest as [-> | [r ->]].
      * left. rewrite E. symmetry. apply app_nil_r.
      * right. exists r. exact E.
Qed.

Lemma findpos_no_opener_witness :
  exists r,
    findpos 20 (lit " 'a' + 1, 2, 3") = Ret r
    /\ ~ In ","%char r
    /\ (r = lit " 'a' + 1, 2, 3"
        \/ exists rest, lit " 'a' + 1, 2, 3" = r ++ ","%char :: rest).
Proof.
  apply (findpos_no_opener 20 (lit " 'a' + 1, 2, 3")).
  - reflexivity.
  - cbn [lit String.list_ascii_of_string length]. lia.
Defined.

(** ** Texts without a reference *)

Lemma getitem_In t i c : 0 <= i -> Py.getitem t i = Ret c -> In c t.
Proof.
  intros Hi H. destruct (getitem_split t i c Hi H) as (u & w & -> & _).
  apply in_or_app. right. left. reflexivity.
Qed.

Lemma search_inside_no_bracket fuel text posins q :
  forallb (fun c => negb (Ascii.eqb c "[")) text = true ->
  q <= len text -> (Z.to_nat q < fuel)%nat ->
  search_inside fuel text posins q = Ret None.
Proof.
  intros Hno. revert q.
  induction fuel as [|fuel IH]; intros q Hq Hfuel; [lia|].
  cbn [search_inside].
  destruct (1 <? q) eqn:E; [|reflexivity].
  apply Z.ltb_lt in E.
  destruct (getitem_inside text (q - 1) ltac:(lia)) as [c Hc].
  rewrite Hc. cbn [bind].
  pose proof (getitem_In text (q - 1) c ltac:(lia) Hc) as Hin.
  rewrite forallb_forall in Hno. specialize (Hno c Hin).
  apply negb_true_iff in Hno. rewrite Hno.
  apply IH; lia.
Qed.

Lemma search_first_no_S fuel text :
  forallb (fun c => negb (Ascii.eqb c "S")) text = true ->
  (0 < fuel)%nat ->
  search_first fuel text (-1) = Ret None.
Proof.
  intros Hno Hfuel. destruct fuel as [|fuel]; [lia|].
  cbn [search_first]. change (-1 + 1) with 0. rewrite slice_from_0.
  destruct (0 <=? Py.find text (lit "S")) eqn:E; [|reflexivity].
  apply Z.leb_le in E. apply (find_char_In "S" text) in E.
  rewrite forallb_forall in Hno. specialize (Hno _ E). discriminate Hno.
Qed.

(** A text without an [S] is left alone: [OnF4] returns [None] for every
    anchor, for every cursor offset outside [1 < posins < len(text)], and
    for every cursor offset at all when the text has no opening square
    bracket either. *)
Theorem OnF4_no_reference fuel text posins posCursor :
  forallb (fun c => negb (Ascii.eqb c "S")) text = true ->
  forallb (fun c => negb (Ascii.eqb c "[")) text = true
  \/ posins <= 1 \/ len text <= posins ->
  (length text < fuel)%nat ->
  OnF4 fuel text posins posCursor = Ret None.
Proof.
  intros HS Hb Hfuel. unfold OnF4.
  assert (Hin : cursor_inside fuel text posins = Ret None).
  { unfold cursor_inside.
    destruct ((1 <? posins) && (posins <? len text)) eqn:E; [|reflexivity].
    apply andb_true_iff in E. destruct E as [E1 E2].
    apply Z.ltb_lt in E1, E2.
    destruct Hb as [Hb|Hb]; [|lia].
    apply (search_inside_no_bracket fuel text posins posins Hb); [lia|].
    unfold len in E2. lia. }
  rewrite Hin. cbn [bind].
  rewrite (search_first_no_S fuel text HS) by lia. reflexivity.
Qed.

(** ** What the rewriter writes *)

(** What [makeXorYrel] returns for an axis name is classified Relative
    for that axis, so the next cycle step can turn it back. *)
Theorem makeXorYrel_is_relative (v text r : pystr) (posCursor : Z * Z) :
  axis v ->
  makeXorYrel v text posCursor = Ret r ->
  testXorYabsrel v r = "R"%char :: v.
Proof.
  intros Hv H. unfold makeXorYrel in H.
  destruct (Py.int text) as [n|] eqn:En; [|discriminate].
  fold (coordinate v posCursor) in H.
  assert (E : r = relative v (n - coordinate v posCursor)).
  { unfold relative. destruct (0 <? n - coordinate v posCursor);
      injection H as <-; reflexivity. }
  rewrite E. apply testXorYabsrel_relative. exact Hv.
Qed.

(** A relative reference follows the anchor: what [makeXorYrel] writes
    for the integer [n] at one anchor, [makeXorYabs] reads at another
    anchor as [n] moved by the difference of the two anchors on that
    axis. *)
Theorem makeXorYabs_other_anchor (v text r : pystr) (n : Z)
  (posCursor posCursor' : Z * Z) :
  axis v ->
  Py.int text = Some n ->
  makeXorYrel v text posCursor = Ret r ->
  makeXorYabs v r posCursor'
  = Ret (Py.str (n + (coordinate v posCursor' - coordinate v posCursor))).
Proof.
  intros Hv Hn H.
  rewrite (makeXorYrel_int v text posCursor n Hn) in H. injection H as <-.
  destruct (axis_char v Hv) as [x ->].
  rewrite makeXorYabs_relative. f_equal. f_equal. lia.
Qed.

(** * The classifier, the cycle and the no-op case, on texts *)

(** ** Two finished runs of the classification agree *)


(** ** The classifier and the specification's three steps *)








(** ** The search with the cursor anywhere inside a reference *)

Lemma getitem_app_right (t u : pystr) i :
  len t <= i -> Py.getitem (t ++ u) i = Py.getitem u (i - len t).
Proof.
  intros Hi. pose proof (len_nonneg t) as Ht. unfold Py.getitem.
  replace (i <? 0) with false by (symmetry; apply Z.ltb_ge; lia).
  replace (i - len t <? 0) with false by (symmetry; apply Z.ltb_ge; lia).
  rewrite len_app.
  replace (0 <=? i) with true by (symmetry; apply Z.leb_le; lia).
  replace (0 <=? i - len t) with true by (symmetry; apply Z.leb_le; lia).
  replace (i <? len t + len u) with (i - len t <? len u)
    by (destruct (i - len t <? len u) eqn:E;
        [apply Z.ltb_lt in E; symmetry; apply Z.ltb_lt; lia
        |apply Z.ltb_ge in E; symmetry; apply Z.ltb_ge; lia]).
  rewrite nth_error_app2 by (unfold len in Hi; lia).
  replace (Z.to_nat i - length t)%nat with (Z.to_nat (i - len t))
    by (unfold len; lia).
  reflexivity.
Qed.

(** The loop of the search walks left over characters that are no opening
    square bracket. *)
Lemma search_inside_skip (k : nat) :
  forall fuel text posins q,
  1 <= q - Z.of_nat k ->
  (forall i, q - Z.of_nat k <= i < q ->
             exists c, Py.getitem text i = Ret c
                       /\ Ascii.eqb c "[" = false) ->
  search_inside (k + fuel) text posins q
  = search_inside fuel text posins (q - Z.of_nat k).
Proof.
  induction k as [|k IH]; intros fuel text posins q Hq Hc.
  - cbn [Nat.add]. f_equal. lia.
  - cbn [Nat.add search_inside].
    replace (1 <? q) with true by (symmetry; apply Z.ltb_lt; lia).
    destruct (Hc (q - 1) ltac:(lia)) as (c & G & N).
    rewrite G. cbn [bind]. rewrite N.
    rewrite (IH fuel text posins (q - 1)).
    + f_equal. lia.
    + lia.
    + intros i Hi. apply Hc. lia.
Qed.

Lemma search_inside_spliced fuel0 fuel (P a b R : pystr) posins :
  anchored_inside fuel0 P R ->
  forallb plain a = true -> forallb plain b = true ->
  (fuel0 <= fuel)%nat ->
  (length (spliced P a b R) < fuel)%nat ->
  len P <= posins <= len P + len a + 1 + len b ->
  search_inside fuel (spliced P a b R) posins (len P)
  = Ret (Some (located_in P a b)).
Proof.
  intros Anch Ha Hb Hf0 Hfuel Hpos.
  destruct (anchored_inside_rest fuel0 P R Anch) as (R1 & B & ER & FR & HR1).
  destruct Anch as (HP & Hbr & (temp0 & Hskip & Ht0 & Href) & _ & _).
  set (m := a ++ ","%char :: b ++ R1).
  assert (Em : spliced P a b R = P ++ m ++ "]"%char :: B).
  { unfold spliced, m. rewrite ER, <- !app_assoc. cbn [app].
    rewrite <- !app_assoc. reflexivity. }
  assert (Em2 : spliced P a b R = (P ++ m) ++ "]"%char :: B)
    by (rewrite Em, <- app_assoc; reflexivity).
  assert (Em3 : spliced P a b R
                = (P ++ a ++ [","%char]) ++ (b ++ R1) ++ "]"%char :: B).
  { rewrite Em. unfold m. rewrite <- !app_assoc. cbn [app].
    rewrite <- !app_assoc. reflexivity. }
  assert (Hm : forallb (fun c => negb (Ascii.eqb c "]")) m = true).
  { unfold m. rewrite forallb_app. cbn [forallb]. rewrite forallb_app.
    rewrite (plain_not_close a Ha), (plain_not_close b Hb), FR.
    reflexivity. }
  assert (Hlm : (length m < fuel)%nat).
  { rewrite Em in Hfuel. rewrite !length_app in Hfuel. lia. }
  assert (Hla : (length a < fuel)%nat)
    by (unfold m in Hlm; rewrite length_app in Hlm; lia).
  assert (Hlb : (length b < fuel)%nat).
  { unfold m in Hlm. rewrite length_app in Hlm. cbn [length] in Hlm.
    rewrite length_app in Hlm. lia. }
  assert (Hlenm : len a + 1 + len b <= len m).
  { unfold m. rewrite len_app, len_cons, len_app.
    pose proof (len_nonneg R1). lia. }
  (* the scan for the closing bracket, from the cursor *)
  set (k := Z.to_nat (posins - len P)).
  assert (Hk : (k <= length m)%nat) by (unfold k, len in *; lia).
  assert (Esplit : m = firstn k m ++ skipn k m)
    by (symmetry; apply firstn_skipn).
  assert (Hl1 : len (firstn k m) = posins - len P).
  { unfold len at 1. rewrite length_firstn, Nat.min_l by exact Hk.
    unfold k. lia. }
  assert (Hm2 : forallb (fun c => negb (Ascii.eqb c "]")) (skipn k m) = true).
  { rewrite Esplit, forallb_app in Hm. apply andb_true_iff in Hm.
    apply Hm. }
  assert (Hl2 : (length (skipn k m) < fuel)%nat).
  { rewrite length_skipn. lia. }
  remember (spliced P a b R) as text eqn:Et.
  assert (Hlen : len text = len P + len m + 1 + len B).
  { rewrite Em, !len_app, len_cons. lia. }
  pose proof (len_nonneg m) as Hm0. pose proof (len_nonneg B) as HB0.
  assert (G1 : Py.getitem text (len P - 1) = Ret "["%char).
  { rewrite Em, getitem_app_left by lia. exact Hbr. }
  assert (G2 : skip_blanks_back fuel text (len P - 1 - 1) = Ret temp0).
  { rewrite Em, skip_blanks_back_app by lia.
    replace (len P - 1 - 1) with (len P - 2) by lia.
    apply (extends_ret _ _ _
             (skip_blanks_back_mono fuel0 fuel P (len P - 2) Hf0) Hskip). }
  assert (G3 : is_reference_start text temp0 = Ret true).
  { rewrite Em, is_reference_start_app by lia. exact Href. }
  assert (G4 : scan_to_close fuel text posins = Ret (len P + len m)).
  { assert (E4 : text = (P ++ firstn k m) ++ skipn k m ++ "]"%char :: B).
    { rewrite Em. rewrite Esplit at 1. rewrite <- !app_assoc. reflexivity. }
    rewrite E4.
    replace posins with (len (P ++ firstn k m))
      by (rewrite len_app, Hl1; lia).
    rewrite (scan_to_close_run fuel (P ++ firstn k m) (skipn k m) B Hm2 Hl2).
    f_equal. rewrite len_app, Hl1.
    assert (E5 : len m = len (firstn k m) + len (skipn k m))
      by (rewrite <- len_app, <- Esplit; reflexivity).
    rewrite E5, Hl1. lia. }
  assert (G5 : Py.getitem text (len P + len m) = Ret "]"%char).
  { rewrite Em2, <- len_app. apply getitem_app_here. }
  assert (G6 : Py.slice text (len P) (len P + len m) = m).
  { rewrite Em. apply slice_app. }
  assert (G7 : findpos fuel m = Ret a).
  { unfold m. apply findpos_plain; [exact Ha | right; eauto | exact Hla]. }
  assert (G8 : Py.slice text (len P + len a + 1) (len P + len m) = b ++ R1).
  { rewrite Em3.
    replace (len P + len a + 1) with (len (P ++ a ++ [","%char]))
      by (rewrite !len_app, len_cons, len_nil; lia).
    replace (len P + len m)
      with (len (P ++ a ++ [","%char]) + len (b ++ R1))
      by (unfold m; rewrite !len_app, !len_cons, !len_app, len_nil; lia).
    apply slice_app. }
  assert (G9 : findpos fuel (b ++ R1) = Ret b)
    by (apply findpos_plain; assumption).
  assert (G10 : findcolon fuel (a, b) = Ret (-1, -1))
    by (apply findcolon_plain; assumption).
  destruct fuel as [|fuel']; [lia|].
  cbn [search_inside].
  replace (1 <? len P) with true by (symmetry; apply Z.ltb_lt; lia).
  rewrite G1. cbn [bind]. change (Ascii.eqb "[" "[") with true. cbv iota.
  rewrite G2. cbn [bind]. rewrite G3. cbn [bind]. rewrite G4. cbn [bind].
  rewrite G5. cbn [bind]. change (Ascii.eqb "]" "]") with true. cbv iota.
  replace (len P - 1 + 1) with (len P) by lia.
  unfold split_inside. rewrite G6, G7. cbn [bind].
  rewrite G8, G9. cbn [bind]. rewrite G10. cbn [bind fst snd].
  reflexivity.
Qed.

Lemma plain_not_open m :
  forallb plain m = true ->
  forallb (fun c => negb (Ascii.eqb c "[")) m = true.
Proof.
  induction m as [|c m IH]; intros H; [reflexivity|].
  cbn [forallb] in *. apply andb_true_iff in H. destruct H as [Hc Hm].
  rewrite (IH Hm), andb_true_r.
  destruct (Ascii.eqb c "[") eqn:E; [|reflexivity].
  apply Ascii.eqb_eq in E. subst c. discriminate Hc.
Qed.

(** With the cursor anywhere from the start of the first component to
    the end of the second, the search with the cursor inside locates the
    reference. *)
Lemma cursor_inside_reference fuel0 fuel (P a b R : pystr) posins :
  anchored_inside fuel0 P R ->
  forallb plain a = true -> forallb plain b = true ->
  (fuel0 + 2 * length (spliced P a b R) < fuel)%nat ->
  len P <= posins <= len P + len a + 1 + len b ->
  cursor_inside fuel (spliced P a b R) posins
  = Ret (Some (located_in P a b)).
Proof.
  intros Anch Ha Hb Hfuel Hpos.
  pose proof Anch as (HP & _).
  pose proof (len_spliced P a b R) as Hlen.
  assert (HR : 1 <= len R).
  { destruct Anch as (_ & _ & _ & _ & c & r & -> & _).
    rewrite len_cons. pose proof (len_nonneg r). lia. }
  unfold cursor_inside.
  replace (1 <? posins) with true by (symmetry; apply Z.ltb_lt; lia).
  replace (posins <? len (spliced P a b R)) with true
    by (symmetry; apply Z.ltb_lt; lia).
  cbn [andb].
  set (k := Z.to_nat (posins - len P)).
  assert (Hk : Z.of_nat k = posins - len P) by (unfold k; lia).
  assert (Hkl : (k <= length (spliced P a b R))%nat).
  { unfold len in *. lia. }
  replace fuel with (k + (fuel - k))%nat by lia.
  rewrite search_inside_skip.
  - replace (posins - Z.of_nat k) with (len P) by lia.
    apply (search_inside_spliced fuel0 (fuel - k) P a b R posins Anch Ha Hb);
      [lia | lia | exact Hpos].
  - lia.
  - intros i Hi.
    set (m := a ++ ","%char :: b).
    assert (Em : spliced P a b R = P ++ m ++ R)
      by (unfold spliced, m; rewrite <- app_assoc; reflexivity).
    assert (Hlm : len m = len a + 1 + len b)
      by (unfold m; rewrite len_app, len_cons; lia).
    assert (Hm : forallb (fun c => negb (Ascii.eqb c "[")) m = true).
    { unfold m. rewrite forallb_app. cbn [forallb].
      rewrite (plain_not_open a Ha), (plain_not_open b Hb). reflexivity. }
    rewrite Em, getitem_app_right by lia.
    rewrite getitem_app_left by lia.
    destruct (getitem_inside m (i - len P) ltac:(lia)) as [c G].
    exists c. split; [exact G|].
    pose proof (getitem_In m (i - len P) c ltac:(lia) G) as Hin.
    rewrite forallb_forall in Hm. specialize (Hm c Hin).
    apply negb_true_iff in Hm. exact Hm.
Qed.

(** ** A reference given by its text *)

Lemma find_first (x : ascii) (Q T : pystr) :
  forallb (fun c => negb (Ascii.eqb c x)) Q = true ->
  Py.find (Q ++ x :: T) [x] = len Q.
Proof.
  induction Q as [|c Q IH]; intros H.
  - cbn [app]. rewrite find_head. reflexivity.
  - cbn [forallb] in H. apply andb_true_iff in H. destruct H as [Hc HQ].
    apply negb_true_iff in Hc.
    cbn [app]. rewrite find_cons, prefixb_char.
    rewrite (Ascii.eqb_sym x c), Hc, (IH HQ).
    pose proof (len_nonneg Q).
    replace (len Q <? 0) with false by (symmetry; apply Z.ltb_ge; lia).
    rewrite len_cons. lia.
Qed.

Lemma find_none (x : ascii) (T : pystr) :
  forallb (fun c => negb (Ascii.eqb c x)) T = true ->
  (0 <=? Py.find T [x]) = false.
Proof.
  intros H. destruct (0 <=? Py.find T [x]) eqn:E; [|reflexivity].
  apply Z.leb_le in E. apply (find_char_In x T) in E.
  rewrite forallb_forall in H. specialize (H _ E).
  rewrite Ascii.eqb_refl in H. discriminate H.
Qed.

Lemma skip_blanks_back_run (Q bl : pystr) :
  forall (y : pystr) fuel,
  forallb (fun c => Py.mem c blanks) bl = true ->
  (length bl < fuel)%nat ->
  skip_blanks_back fuel (Q ++ "S"%char :: bl ++ y) (len Q + len bl)
  = Ret (len Q).
Proof.
  induction bl as [|c bl IH] using rev_ind; intros y fuel Hbl Hfuel.
  - destruct fuel as [|fuel]; [cbn [length] in Hfuel; lia|].
    cbn [app skip_blanks_back]. rewrite len_nil, Z.add_0_r.
    rewrite getitem_app_here. reflexivity.
  - destruct fuel as [|fuel]; [lia|].
    rewrite forallb_app in Hbl. apply andb_true_iff in Hbl.
    destruct Hbl as [Hbl Hc]. cbn [forallb] in Hc.
    rewrite andb_true_r in Hc.
    rewrite length_app in Hfuel. cbn [length] in Hfuel.
    assert (E : Q ++ "S"%char :: (bl ++ [c]) ++ y
                = (Q ++ "S"%char :: bl) ++ c :: y).
    { reassoc. }
    cbn [skip_blanks_back]. rewrite E.
    replace (len Q + len (bl ++ [c])) with (len (Q ++ "S"%char :: bl))
      by (rewrite !len_app, !len_cons, len_nil; lia).
    rewrite getitem_app_here. cbn [bind]. rewrite Hc.
    replace (0 <? len (Q ++ "S"%char :: bl)) with true
      by (symmetry; apply Z.ltb_lt; rewrite len_app, len_cons;
          pose proof (len_nonneg Q); pose proof (len_nonneg bl); lia).
    cbn [andb].
    replace (len (Q ++ "S"%char :: bl) - 1) with (len Q + len bl)
      by (rewrite len_app, len_cons; lia).
    rewrite <- app_assoc. cbn [app].
    apply (IH (c :: y) fuel Hbl). lia.
Qed.

Lemma anchored_inside_open (Q bl R : pystr) :
  after_separator Q ->
  forallb (fun c => Py.mem c blanks) bl = true ->
  reference_close R ->
  anchored_inside (S (length bl)) (reference_open Q bl) R.
Proof.
  intros HQ Hbl [HR1 HR2]. unfold anchored_inside, reference_open.
  pose proof (len_nonneg Q) as HQ0. pose proof (len_nonneg bl) as Hb0.
  assert (HlP : len (Q ++ "S"%char :: bl ++ ["["%char])
                = len Q + 1 + len bl + 1).
  { rewrite len_app, len_cons, len_app, len_cons, len_nil. lia. }
  split; [lia|]. split.
  { replace (Q ++ "S"%char :: bl ++ ["["%char])
      with ((Q ++ "S"%char :: bl) ++ ["["%char])
      by (rewrite <- app_assoc; reflexivity).
    replace (len ((Q ++ "S"%char :: bl) ++ ["["%char]) - 1)
      with (len (Q ++ "S"%char :: bl))
      by (rewrite !len_app, !len_cons, len_nil; lia).
    apply getitem_app_here. }
  split; [|split; [exact HR2 | exact HR1]].
  exists (len Q). split; [|split; [lia|]].
  - replace (len (Q ++ "S"%char :: bl ++ ["["%char]) - 2)
      with (len Q + len bl) by lia.
    apply skip_blanks_back_run; [exact Hbl | lia].
  - unfold is_reference_start. rewrite getitem_app_here. cbn [bind].
    change (Ascii.eqb "S" "S") with true. cbv iota.
    unfold at_start_or_after_separator.
    destruct HQ as [-> | (q & c & -> & Hc)]; [reflexivity|].
    replace (len (q ++ [c]) =? 0) with false
      by (symmetry; apply Z.eqb_neq; rewrite len_app, len_cons, len_nil;
          pose proof (len_nonneg q); lia).
    rewrite <- app_assoc. cbn [app].
    replace (len (q ++ [c]) - 1) with (len q)
      by (rewrite len_app, len_cons, len_nil; lia).
    rewrite getitem_app_here. cbn [bind]. rewrite Hc. reflexivity.
Qed.




(** ** Cycle closure *)



(** ** Nothing to toggle *)

Lemma testXorYabsrel_nonempty v s : testXorYabsrel v s <> [].
Proof.
  destruct (testXorYabsrel_cases v s) as [[H _]|[H|[H|H]]];
    rewrite H; discriminate.
Qed.

Lemma split_inside_tags fuel text posins pX temp loc :
  split_inside fuel text posins pX temp = Ret loc ->
  abs1 loc <> [] /\ abs2 loc <> [].
Proof.
  unfold split_inside.
  destruct (findpos fuel (Py.slice text pX temp)) as [s1| |];
    cbn [bind]; try discriminate.
  destruct (findpos fuel (Py.slice text (pX + len s1 + 1) temp)) as [s2| |];
    cbn [bind]; try discriminate.
  destruct (findcolon fuel (s1, s2)) as [colons| |];
    cbn [bind]; try discriminate.
  destruct ((fst colons =? -1) && (snd colons =? -1)).
  { intros [= <-]. cbn [abs1 abs2].
    split; apply testXorYabsrel_nonempty. }
  destruct (posins <=? pX + len s1).
  - destruct (fst colons =? -1); intros [= <-]; cbn [abs1 abs2];
      (split; [apply testXorYabsrel_nonempty|]);
      first [apply testXorYabsrel_nonempty | discriminate].
  - destruct (snd colons =? -1); intros [= <-]; cbn [abs1 abs2];
      (split; [|apply testXorYabsrel_nonempty]);
      first [apply testXorYabsrel_nonempty | discriminate].
Qed.

(** The tags a search leaves are values of [testXorYabsrel] or ['-']. *)
Lemma locate_tags fuel text posins loc inside :
  locate fuel text posins = Ret (Some (loc, inside)) ->
  abs1 loc <> [] /\ abs2 loc <> [].
Proof.
  unfold locate.
  destruct (cursor_inside fuel text posins) as [[l|]| |] eqn:Hc;
    cbn [bind]; try discriminate.
  - intros [= <- _]. unfold cursor_inside in Hc.
    destruct ((1 <? posins) && (posins <? len text)); [|discriminate Hc].
    destruct (search_inside_inv _ _ _ _ _ Hc)
      as (p & temp0 & temp & _ & _ & _ & _ & _ & _ & Sp).
    apply (split_inside_tags _ _ _ _ _ _ Sp).
  - destruct (search_first fuel text (-1)) as [[l|]| |] eqn:Hs;
      cbn [bind]; try discriminate.
    intros [= <- _].
    destruct (search_first_inv _ _ _ _ Hs ltac:(lia))
      as (_ & _ & _ & _ & pX & s1 & s2 & _ & _ & _ & ->).
    cbn [abs1 abs2]. split; apply testXorYabsrel_nonempty.
Qed.

Lemma tag_complex absXY :
  absXY <> [] -> classification_of absXY = Spec.Complex ->
  exists c r, absXY = c :: r
              /\ Ascii.eqb "A" c = false /\ Ascii.eqb "R" c = false.
Proof.
  destruct absXY as [|c r]; [contradiction|]. intros _.
  unfold classification_of. exists c, r.
  rewrite (Ascii.eqb_sym "A" c), (Ascii.eqb_sym "R" c).
  destruct (Ascii.eqb c "A"); [discriminate|].
  destruct (Ascii.eqb c "R"); [discriminate|].
  repeat split.
Qed.

(** With two Complex components every test of the chain fails. *)
Lemma cycle_complex text loc posCursor :
  abs1 loc <> [] -> abs2 loc <> [] ->
  classification_of (abs1 loc) = Spec.Complex ->
  classification_of (abs2 loc) = Spec.Complex ->
  cycle text loc posCursor = Ret text.
Proof.
  intros N1 N2 C1 C2.
  destruct (tag_complex _ N1 C1) as (c1 & r1 & E1 & A1 & R1).
  destruct (tag_complex _ N2 C2) as (c2 & r2 & E2 & A2 & R2).
  assert (G : forall c r, Py.getitem (c :: r) 0 = Ret c)
    by (intros; reflexivity).
  unfold cycle. rewrite E1, E2, !G. cbn [bind].
  rewrite A1, A2, R1, R2. reflexivity.
Qed.

Lemma search_first_rejected fuel text :
  no_reference_start text ->
  (length text < fuel)%nat ->
  search_first fuel text (-1) = Ret None.
Proof.
  intros [H | (Q & T & -> & HQ & HT & Hrej)] Hfuel.
  { apply search_first_no_S; [exact H | lia]. }
  rewrite length_app in Hfuel. cbn [length] in Hfuel.
  destruct fuel as [|[|fuel]]; [lia | lia |].
  remember (Q ++ "S"%char :: T) as text eqn:Et.
  pose proof (len_nonneg Q) as HQ0.
  assert (F0 : Py.find text (lit "S") = len Q)
    by (rewrite Et; apply (find_first "S" Q T HQ)).
  assert (F1 : Py.slice_from text (len Q + 1) = T).
  { rewrite Et.
    replace (Q ++ "S"%char :: T) with ((Q ++ ["S"%char]) ++ T) by reassoc.
    replace (len Q + 1) with (len (Q ++ ["S"%char]))
      by (rewrite len_app, len_cons, len_nil; lia).
    apply slice_from_app. }
  assert (F2 : Py.slice_to text (len Q) = Q)
    by (rewrite Et; apply slice_to_app).
  (* the second iteration: no further [S] *)
  assert (Next : search_first (S fuel) text (len Q) = Ret None).
  { cbn [search_first]. rewrite F1.
    change (lit "S") with ["S"%char]. rewrite (find_none "S" T HT).
    reflexivity. }
  remember (S fuel) as fuel1 eqn:Ef. clear Ef.
  cbn [search_first].
  change (-1 + 1) with 0. rewrite slice_from_0, F0.
  replace (0 <=? len Q) with true by (symmetry; apply Z.leb_le; lia).
  rewrite F2.
  unfold at_start_or_after_separator.
  destruct Q as [|c0 Q'] using rev_ind.
  - (* the [S] opens the text *)
    cbn [bind]. change (len []) with 0 in *. cbn [Z.eqb].
    cbn [bind]. change (Py.count [] dquote mod 2 =? 1) with false.
    change (Py.count [] "'" mod 2 =? 1) with false. cbn [orb].
    destruct Hrej as [(q & c & E & _) | [H | (c & t & ET & Hc)]].
    + destruct q; discriminate E.
    + discriminate H.
    + assert (G : Py.getitem text (0 + 1) = Ret c).
      { rewrite Et, ET. apply (getitem_app_here ["S"%char] c t). }
      rewrite G. cbn [bind]. rewrite Hc. exact Next.
  - clear IHQ'.
    replace (len (Q' ++ [c0]) =? 0) with false
      by (symmetry; apply Z.eqb_neq; rewrite len_app, len_cons, len_nil;
          pose proof (len_nonneg Q'); lia).
    assert (G : Py.getitem text (len (Q' ++ [c0]) - 1) = Ret c0).
    { rewrite Et, <- app_assoc. cbn [app].
      replace (len (Q' ++ [c0]) - 1) with (len Q')
        by (rewrite len_app, len_cons, len_nil; lia).
      apply getitem_app_here. }
    rewrite G. cbn [bind].
    destruct (Py.mem c0 separators) eqn:Hsep; [|exact Next].
    destruct ((Py.count (Q' ++ [c0]) dquote mod 2 =? 1)
              || (Py.count (Q' ++ [c0]) "'" mod 2 =? 1)) eqn:Hpar;
      [exact Next|].
    destruct Hrej as [(q & c & E & Hc) | [H | (c & t & ET & Hc)]].
    + apply app_inj_tail in E. destruct E as [_ <-].
      rewrite Hc in Hsep. discriminate Hsep.
    + congruence.
    + assert (G' : Py.getitem text (len (Q' ++ [c0]) + 1) = Ret c).
      { rewrite Et, ET.
        replace ((Q' ++ [c0]) ++ "S"%char :: c :: t)
          with (((Q' ++ [c0]) ++ ["S"%char]) ++ c :: t) by reassoc.
        replace (len (Q' ++ [c0]) + 1)
          with (len ((Q' ++ [c0]) ++ ["S"%char]))
          by (rewrite (len_app (Q' ++ [c0])), len_cons, len_nil; lia).
        apply getitem_app_here. }
      rewrite G'. cbn [bind]. rewrite Hc. exact Next.
Qed.

(** C5, amended. When the text holds no start of a reference, and when
    the searches locate nothing, [OnF4] returns the sentinel [None].
    When the two components of a reference both classify as Complex,
    ['C' + v] and ['-'] alike, [OnF4] returns the text unchanged together
    with a cursor offset, not the sentinel: the start of the first
    component for the search with the cursor inside, 0 for the
    first-reference search. *)
Theorem OnF4_nothing_to_toggle fuel text posins posCursor :
  (no_reference_start text ->
   forallb (fun c => negb (Ascii.eqb c "[")) text = true
   \/ posins <= 1 \/ len text <= posins ->
   (length text < fuel)%nat ->
   OnF4 fuel text posins posCursor = Ret None)
  /\ (locate fuel text posins = Ret None ->
      OnF4 fuel text posins posCursor = Ret None)
  /\ (forall loc inside,
        locate fuel text posins = Ret (Some (loc, inside)) ->
        classification_of (abs1 loc) = Spec.Complex ->
        classification_of (abs2 loc) = Spec.Complex ->
        OnF4 fuel text posins posCursor
        = Ret (Some (text, if inside then posX loc else 0)))
  /\ (forall Q bl a b R,
        text = spliced (reference_open Q bl) a b R ->
        after_separator Q ->
        forallb (fun c => Py.mem c blanks) bl = true ->
        reference_close R ->
        forallb plain a = true -> forallb plain b = true ->
        classification_of (testXorYabsrel (lit "X") a) = Spec.Complex ->
        classification_of (testXorYabsrel (lit "Y") b) = Spec.Complex ->
        len (reference_open Q bl) <= posins
          <= len (reference_open Q bl) + len a + 1 + len b ->
        (S (length bl) + 2 * length text < fuel)%nat ->
        OnF4 fuel text posins posCursor
        = Ret (Some (text, len (reference_open Q bl)))).
Proof.
  split; [|split; [|split]].
  - intros Hno Hb Hfuel. unfold OnF4.
    assert (Hin : cursor_inside fuel text posins = Ret None).
    { unfold cursor_inside.
      destruct ((1 <? posins) && (posins <? len text)) eqn:E; [|reflexivity].
      apply andb_true_iff in E. destruct E as [E1 E2].
      apply Z.ltb_lt in E1, E2.
      destruct Hb as [Hb|Hb]; [|lia].
      apply (search_inside_no_bracket fuel text posins posins Hb); [lia|].
      unfold len in E2. lia. }
    rewrite Hin. cbn [bind].
    rewrite (search_first_rejected fuel text Hno Hfuel). reflexivity.
  - intros HL. rewrite OnF4_locate, HL. reflexivity.
  - intros loc inside HL C1 C2.
    destruct (locate_tags fuel text posins loc inside HL) as [N1 N2].
    rewrite OnF4_locate, HL. cbn [bind].
    rewrite (cycle_complex text loc posCursor N1 N2 C1 C2). reflexivity.
  - intros Q bl a b R Et HQ Hbl HR Pa Pb C1 C2 Hpos Hfuel.
    pose proof (anchored_inside_open Q bl R HQ Hbl HR) as Anch.
    subst text. rewrite OnF4_locate. unfold locate.
    rewrite (cursor_inside_reference (S (length bl)) fuel
               (reference_open Q bl) a b R posins Anch Pa Pb Hfuel Hpos).
    cbn [bind].
    rewrite (cycle_complex (spliced (reference_open Q bl) a b R)
               (located_in (reference_open Q bl) a b) posCursor);
      try assumption; try apply testXorYabsrel_nonempty.
    reflexivity.
Qed.

End F4.

(** * The theorems at sample inputs *)

(** What follows holds for every behaviour of [eval] outside the integer
    expressions, or is stated for one that raises there, [raising]. *)

(** ** Cycle closure *)



(** ** The scenario [S[3, 4]] *)

(** C2, as the specification states it, fails: with the cursor at offset
    3 and the anchor at (0, 0), no behaviour of [eval] and no budget make
    [OnF4] return the text [S[X - 3, Y - 4]]. *)
Lemma OnF4_S34_counterexample :
  ~ (exists beyond fuel cursor,
        OnF4 beyond fuel (lit "S[3, 4]") 3 (0, 0)
        = Ret (Some (lit "S[X - 3, Y - 4]", cursor))).
Proof.
  intros (beyond & fuel & cursor & H).
  assert (Hu : OnF4 beyond fuel (lit "S[3, 4]") 3 (0, 0)
               = OnF4 beyond 20 (lit "S[3, 4]") 3 (0, 0)).
  { apply OnF4_unique; [rewrite H; exact I | vm_compute; exact I]. }
  rewrite H in Hu. vm_compute in Hu. discriminate Hu.
Qed.

Lemma OnF4_S34_witness :
  classes raising 20 (lit "S[3, 4]") 3 = Ret (Some (lit "AX", lit "AY"))
  /\ OnF4 raising 20 (lit "S[3, 4]") 3 (0, 0)
     = Ret (Some (lit "S[X + 3,Y + 4]", 2)).
Proof.
  apply (OnF4_S34 raising 20 3); [apply Nat.le_refl | lia].
Defined.

(** ** Nothing to toggle *)

(** C5, as the specification states it, fails: in [S[a,b]] both
    components are Complex, and whatever [eval] does, [OnF4] returns the
    text with the cursor moved from 3 to 2, not the sentinel [None]. *)
Lemma OnF4_complex_counterexample :
  (fun beyond => classes beyond 20 (lit "S[a,b]") 3)
  = (fun _ => Ret (Some (lit "-", lit "-")))
  /\ classification_of (lit "-") = Spec.Complex
  /\ (fun beyond => OnF4 beyond 20 (lit "S[a,b]") 3 (0, 0))
     = (fun _ => Ret (Some (lit "S[a,b]", 2)))
  /\ ~ (exists beyond fuel,
          OnF4 beyond fuel (lit "S[a,b]") 3 (0, 0) = Ret None).
Proof.
  split; [reflexivity|]. split; [reflexivity|]. split; [reflexivity|].
  intros (beyond & fuel & H).
  assert (Hu : OnF4 beyond fuel (lit "S[a,b]") 3 (0, 0)
               = OnF4 beyond 20 (lit "S[a,b]") 3 (0, 0)).
  { apply OnF4_unique; [rewrite H; exact I | vm_compute; exact I]. }
  rewrite H in Hu. vm_compute in Hu. discriminate Hu.
Qed.

Lemma OnF4_nothing_to_toggle_witness :
  OnF4 raising 20 (lit "Sum(x) + 1") 0 (0, 0) = Ret None
  /\ OnF4 raising 20 (lit "S[a,b]") 0 (0, 0) = Ret (Some (lit "S[a,b]", 0))
  /\ OnF4 raising 40 (lit "x = S[a,b]") 8 (0, 0)
     = Ret (Some (lit "x = S[a,b]", 6)).
Proof.
  split; [|split].
  - apply (proj1 (OnF4_nothing_to_toggle raising 20 (lit "Sum(x) + 1") 0
                    (0, 0))).
    + right. exists [], (lit "um(x) + 1").
      split; [reflexivity|]. split; [reflexivity|]. split; [reflexivity|].
      right. right. exists "u"%char, (lit "m(x) + 1").
      split; reflexivity.
    + right. left. lia.
    + vm_compute. lia.
  - apply (proj1 (proj2 (proj2 (OnF4_nothing_to_toggle raising 20
                                  (lit "S[a,b]") 0 (0, 0))))
             (Located 2 4 (lit "a") (lit "b]") (lit "-") (lit "-")) false);
      reflexivity.
  - apply (proj2 (proj2 (proj2 (OnF4_nothing_to_toggle raising 40
                                  (lit "x = S[a,b]") 8 (0, 0))))
             (lit "x = ") [] (lit "a") (lit "b") (lit "]")).
    + reflexivity.
    + right. exists (lit "x ="), " "%char. split; reflexivity.
    + reflexivity.
    + split; [|left; reflexivity].
      exists "]"%char, []. split; [reflexivity | right; reflexivity].
    + reflexivity.
    + reflexivity.
    + reflexivity.
    + reflexivity.
    + vm_compute. split; discriminate.
    + vm_compute. lia.
Defined.

(** ** The classifier *)


(** ** The rewriter *)

Lemma makeXorYabs_makeXorYrel_witness :
  (text <- makeXorYrel (lit "Y") (Py.str (-7)) (2, 5) ;;
   makeXorYabs raising (lit "Y") text (2, 5))
  = Ret (Py.str (-7)).
Proof.
  apply (makeXorYabs_makeXorYrel raising (-7) (lit "Y") (2, 5)).
  right; reflexivity.
Defined.

Lemma makeXorYrel_is_relative_witness :
  testXorYabsrel raising (lit "X") (lit "X - 2") = lit "RX".
Proof.
  apply (makeXorYrel_is_relative raising (lit "X") (lit " 3") (lit "X - 2")
           (5, 0)).
  - left. reflexivity.
  - reflexivity.
Defined.

Lemma makeXorYabs_other_anchor_witness :
  makeXorYabs raising (lit "Y") (lit "Y + 4") (0, 10)
  = Ret (Py.str (5 + (10 - 1))).
Proof.
  apply (makeXorYabs_other_anchor raising (lit "Y") (lit "5") (lit "Y + 4") 5
           (0, 1) (0, 10)).
  - right. reflexivity.
  - reflexivity.
  - reflexivity.
Defined.

(** ** Which search runs *)

Lemma OnF4_cursor_at_edge_witness :
  cursor_inside raising 20 (lit "S[3, 4]") 1 = Ret None
  /\ OnF4 raising 20 (lit "S[3, 4]") 1 (0, 0)
     = Ret (Some (lit "S[X + 3, 4]", 0))
  /\ cursor_inside raising 20 (lit "S[3, 4]") 7 = Ret None
  /\ cursor_inside raising 20 (lit "S[3, 4]") 3
     = search_inside raising 20 (lit "S[3, 4]") 3 3.
Proof.
  pose proof (OnF4_cursor_at_edge raising 20 (lit "S[3, 4]") 1 (0, 0))
    as [_ H1].
  pose proof (OnF4_cursor_at_edge raising 20 (lit "S[3, 4]") 7 (0, 0))
    as [_ H7].
  pose proof (OnF4_cursor_at_edge raising 20 (lit "S[3, 4]") 3 (0, 0))
    as [H3 _].
  assert (E1 : 1 <= 1 \/ len (lit "S[3, 4]") <= 1) by (left; lia).
  assert (E7 : 7 <= 1 \/ len (lit "S[3, 4]") <= 7)
    by (right; vm_compute; discriminate).
  destruct (H1 E1) as (A & B & _).
  destruct (H7 E7) as (C & _).
  split; [exact A|].
  split; [rewrite B; reflexivity|].
  split; [exact C|].
  apply H3. split; [lia | reflexivity].
Defined.

(** ** Texts without a reference *)

Lemma OnF4_no_reference_witness :
  OnF4 raising 20 (lit "x + (y, 2)") 4 (3, 5) = Ret None.
Proof.
  apply (OnF4_no_reference raising 20 (lit "x + (y, 2)") 4 (3, 5)).
  - reflexivity.
  - left. reflexivity.
  - cbn [lit String.list_ascii_of_string length]. lia.
Defined.
